(** * The unit filter of [src/unit_filter.cpp]

    A shallow embedding of the unit query/filter engine: the lazily parsed
    list attributes, the compile step ([construct] and the constructor of
    [basic_unit_filter_impl]), the match evaluator ([matches] and
    [internal_matches_filter]) and the two map queries.

    Code the file calls but does not define (string utilities, the
    attribute table, terrain and side filters, the formula and scripting
    bridges) is gathered in the record [library]; the world the filter is
    bound to is [filter_context]. *)

From Stdlib Require Import List String Ascii ZArith Bool Lia Arith Sorted.
Import ListNotations.

Local Open Scope string_scope.
Local Open Scope Z_scope.

Set Implicit Arguments.
Set Warnings "-register-all".

(** ** Attribute values *)

(** Modelled from the spec: [config::attribute_value] is declared in
    config.hpp, outside unit_filter.cpp.  An attribute is absent (never
    set, [blank]) or holds a value, here its text. *)

Definition attribute_value := option string.

Definition blank (a : attribute_value) : bool :=
  match a with None => true | Some _ => false end.

Definition str (a : attribute_value) : string :=
  match a with None => "" | Some s => s end.

(** [attribute_value::empty]: never set, or set to the empty string. *)
Definition attr_empty (a : attribute_value) : bool :=
  match a with None => true | Some s => String.eqb s "" end.

(** [operator==] against a string: a blank attribute equals no string. *)
Definition attr_eq (a : attribute_value) (s : string) : bool :=
  match a with None => false | Some v => String.eqb v s end.

(** ** [lazy_string_list]

    The wrapper keeps the raw string and an optional parsed list; [get]
    fills the optional on first use.  The member is [mutable] in the
    source, so every query returns the wrapper it leaves behind.  The third
    component of a result counts the calls to [utils::split] the query made;
    it is bookkeeping of the model, not a member of the class. *)

Module LazyStringList.

Record lazy_string_list := Build {
  my_str_ : string;
  my_list_ : option (list string)
}.

Section WithSplit.

(** [utils::split] with its default arguments. *)
Variable split : string -> list string.

Definition make (attr : attribute_value) : lazy_string_list :=
  if blank attr
  then {| my_str_ := ""; my_list_ := Some [] |}
  else {| my_str_ := str attr; my_list_ := None |}.

Definition get (l : lazy_string_list)
  : list string * lazy_string_list * nat :=
  match my_list_ l with
  | None =>
      let v := split (my_str_ l) in
      (v, {| my_str_ := my_str_ l; my_list_ := Some v |}, 1%nat)
  | Some v => (v, l, 0%nat)
  end.

Definition is_nil (v : list string) : bool :=
  match v with [] => true | _ :: _ => false end.

Definition empty (l : lazy_string_list) : bool * lazy_string_list * nat :=
  let '(v, l', n) := get l in (is_nil v, l', n).

(** [std::find(vals.begin(), vals.end(), str) != vals.end()] *)
Definition find (l : lazy_string_list) (s : string)
  : bool * lazy_string_list * nat :=
  let '(v, l', n) := get l in (existsb (String.eqb s) v, l', n).

(** The list a wrapper built from [attr] stands for. *)
Definition parsed (attr : attribute_value) : list string :=
  if blank attr then [] else split (str attr).

(** Queries a client can issue, and a run of them from left to right. *)
Inductive query := q_get | q_empty | q_find (s : string).

Inductive answer := a_list (v : list string) | a_bool (b : bool).

Definition ask (q : query) (l : lazy_string_list)
  : answer * lazy_string_list * nat :=
  match q with
  | q_get => let '(v, l', n) := get l in (a_list v, l', n)
  | q_empty => let '(b, l', n) := empty l in (a_bool b, l', n)
  | q_find s => let '(b, l', n) := find l s in (a_bool b, l', n)
  end.

Fixpoint run (qs : list query) (l : lazy_string_list)
  : list answer * lazy_string_list * nat :=
  match qs with
  | [] => ([], l, 0%nat)
  | q :: qs' =>
      let '(a, l1, n1) := ask q l in
      let '(rest, l2, n2) := run qs' l1 in
      (a :: rest, l2, (n1 + n2)%nat)
  end.

(** What each query answers on the parsed list, with no cache at all. *)
Definition answer_of (v : list string) (q : query) : answer :=
  match q with
  | q_get => a_list v
  | q_empty => a_bool (is_nil v)
  | q_find s => a_bool (existsb (String.eqb s) v)
  end.

(** The wrapper stands for list [v]: the cache, once filled, holds [v],
    and an unfilled cache will be filled with [v]. *)
Definition stands_for (l : lazy_string_list) (v : list string) : Prop :=
  match my_list_ l with
  | Some w => w = v
  | None => split (my_str_ l) = v
  end.

Definition cached (l : lazy_string_list) : bool :=
  match my_list_ l with Some _ => true | None => false end.

End WithSplit.

End LazyStringList.

(** ** The description tree *)

(** Modelled from the spec: [vconfig] (variable.hpp) and [config]
    (config.hpp) are declared outside unit_filter.cpp.  A description is an
    ordered tree: a table of attributes and an ordered list of tagged child
    blocks.  A [vconfig] may be null. *)

Inductive vconfig :=
| vnull
| vnode (attributes : list (string * string))
        (all_children : list (string * vconfig)).

Definition config := vconfig.

Fixpoint assoc (k : string) (kvs : list (string * string)) : attribute_value :=
  match kvs with
  | [] => None
  | (k', v) :: rest => if String.eqb k k' then Some v else assoc k rest
  end.

(** [vcfg["key"]] *)
Definition attr (vcfg : vconfig) (key : string) : attribute_value :=
  match vcfg with
  | vnull => None
  | vnode attributes _ => assoc key attributes
  end.

(** [ordered_begin() .. ordered_end()] *)
Definition ordered_children (vcfg : vconfig) : list (string * vconfig) :=
  match vcfg with
  | vnull => []
  | vnode _ cs => cs
  end.

(** [vcfg.get_children(key)] *)
Definition get_children (vcfg : vconfig) (key : string) : list vconfig :=
  map snd (filter (fun kc => String.eqb (fst kc) key) (ordered_children vcfg)).

Definition null (vcfg : vconfig) : bool :=
  match vcfg with vnull => true | vnode _ _ => false end.

(** ** Locations, directions, units, teams *)

Record map_location := { x : Z; y : Z }.

Definition loc_eqb (a b : map_location) : bool :=
  Z.eqb (x a) (x b) && Z.eqb (y a) (y b).

(** Modelled from the spec: [map_location::DIRECTION] and [default_dirs]
    are declared in map_location.hpp, outside unit_filter.cpp; a hex has six
    neighbours and the default direction set is all six. *)
Inductive DIRECTION :=
| NORTH | NORTH_EAST | SOUTH_EAST | SOUTH | SOUTH_WEST | NORTH_WEST.

Definition default_dirs : list DIRECTION :=
  [NORTH; NORTH_EAST; SOUTH_EAST; SOUTH; SOUTH_WEST; NORTH_WEST].

Definition t_terrain := Z.

Inductive GENDER := MALE | FEMALE.

Definition gender_eqb (a b : GENDER) : bool :=
  match a, b with
  | MALE, MALE | FEMALE, FEMALE => true
  | _, _ => false
  end.

Record unit_type := {
  base_id : string;
  has_variation : string -> bool
}.

(** The part of [unit] the filter reads.  [base_type] is the result of
    [unit_types.find(u.type().base_id())], which the source asserts to be
    there. *)
Record unit := {
  name : string;
  id : string;
  side : Z;
  get_location : map_location;
  type_id : string;
  variation : string;
  type : unit_type;
  base_type : unit_type;
  has_ability_by_id : string -> bool;
  race_id : string;
  gender : GENDER;
  attacks : list string;
  get_role : string;
  state_guardian : bool;
  can_recruit : bool;
  recall_cost : Z;
  level : Z;
  defense_modifier : t_terrain -> Z;
  movement_cost : t_terrain -> Z;
  variables : config;
  write : config;
  invisible : map_location -> bool
}.

Record team := {
  fogged : map_location -> bool;
  is_enemy : Z -> bool
}.

(** [game_data]: reading a stored variable as an array either throws
    [invalid_variablename_exception] ([None]) or gives the records found. *)
Record game_data := {
  get_variable_access_read : string -> option (list config)
}.

Record game_lua_kernel := {
  run_filter : string -> unit -> bool
}.

(** [filter_context] with its display context: the unit map in iteration
    order, the teams, the map, and the two optional handles. *)
Record filter_context := {
  units : list unit;
  teams : list team;
  on_board : map_location -> bool;
  get_terrain : map_location -> t_terrain;
  get_game_data : option game_data;
  get_lua_kernel : option game_lua_kernel
}.

(** [teams()[side - 1]].  The source indexes the vector unchecked; for a
    side outside [1 .. teams().size()] the model reads a team without fog
    and without enemies. *)
Definition no_team : team :=
  {| fogged := fun _ => false; is_enemy := fun _ => false |}.

Definition team_of (fc : filter_context) (s : Z) : team :=
  if 1 <=? s then nth (Z.to_nat (s - 1)) (teams fc) no_team else no_team.

(** [units.find(loc)]: the unit placed at [loc], if any. *)
Definition units_find (fc : filter_context) (loc : map_location) : option unit :=
  List.find (fun u => loc_eqb (get_location u) loc) (units fc).

(** ** Code called by the filter and defined elsewhere *)

Record library := {
  (** [utils::split] with default arguments *)
  split : string -> list string;
  (** [utils::parse_ranges] *)
  parse_ranges : string -> list (Z * Z);
  (** [map_location::parse_directions] *)
  parse_directions : string -> list DIRECTION;
  (** [attribute_value::to_int(def)] and [to_bool(def)] *)
  to_int : attribute_value -> Z -> Z;
  to_bool : attribute_value -> bool -> bool;
  string_gender : string -> GENDER;
  str_cast : Z -> string;
  (** [map_location::valid], [matches_range], [get_adjacent_tiles] *)
  valid : map_location -> bool;
  matches_range : map_location -> string -> string -> bool;
  get_adjacent_tiles : map_location -> DIRECTION -> map_location;
  (** [terrain_filter::match], for the filter built from a description *)
  terrain_filter_match :
    filter_context -> vconfig -> bool -> map_location -> bool;
  (** [side_filter::match] and [side_filter::get_teams] *)
  side_filter_match : filter_context -> vconfig -> Z -> bool;
  side_filter_get_teams : filter_context -> vconfig -> list Z;
  (** [config::matches]: does the first config match the filter config *)
  config_matches : config -> config -> bool;
  (** [unit_formula_manager::matches_filter] *)
  formula_matches_filter : string -> map_location -> unit -> bool
}.

(** Modelled from the spec: [in_ranges] is declared in util.hpp, outside
    unit_filter.cpp; a count is accepted when it falls inside one range of
    the set. *)
Definition in_ranges (n : Z) (ranges : list (Z * Z)) : bool :=
  existsb (fun r => (fst r <=? n) && (n <=? snd r)) ranges.

(** [conditional::TYPE], made by [MAKE_ENUM] (make_enum.hpp) with the
    strings "and", "or" and "not". *)
Module conditional.
Inductive TYPE := AND | OR | NOT.

(** [string_to_TYPE]; [None] stands for [bad_enum_cast]. *)
Definition string_to_TYPE (s : string) : option TYPE :=
  if String.eqb s "and" then Some AND
  else if String.eqb s "or" then Some OR
  else if String.eqb s "not" then Some NOT
  else None.
End conditional.

(** ** The compiled filter *)

Import LazyStringList.

Record terrain_filter := { tf_cfg : vconfig; tf_flat_tod : bool }.
Record side_filter := { sf_cfg : vconfig }.

(** [std::set<int>]: kept sorted and without repetition, as the set
    iterates. *)
Fixpoint set_insert (v : Z) (s : list Z) : list Z :=
  match s with
  | [] => [v]
  | h :: t =>
      if v <? h then v :: s
      else if v =? h then s
      else h :: set_insert v t
  end.

Definition set_insert_range (s : list Z) (vs : list Z) : list Z :=
  fold_left (fun acc v => set_insert v acc) vs s.

(** The data members of [basic_unit_filter_impl] ([fc_] is passed to the
    member functions instead); [F] is the type of the nested filters. *)
Record basic_members (F : Type) := {
  use_flat_tod_ : bool;
  cond_children_ : list F;
  cond_child_types_ : list conditional.TYPE;
  cfg_name_ : attribute_value;
  cfg_id_ : lazy_string_list;
  cfg_speaker_ : attribute_value;
  cfg_filter_loc_ : option terrain_filter;
  cfg_filter_side_ : option side_filter;
  cfg_x_ : attribute_value;
  cfg_y_ : attribute_value;
  cfg_type_ : lazy_string_list;
  cfg_variation_type_ : lazy_string_list;
  cfg_has_variation_type_ : lazy_string_list;
  cfg_ability_ : lazy_string_list;
  cfg_race_ : lazy_string_list;
  cfg_gender_ : attribute_value;
  cfg_side_ : lazy_string_list;
  cfg_side_to_int_ : Z;
  cfg_has_weapon_ : attribute_value;
  cfg_role_ : attribute_value;
  cfg_ai_special_ : attribute_value;
  cfg_canrecruit_ : attribute_value;
  cfg_recall_cost_ : attribute_value;
  cfg_level_ : attribute_value;
  cfg_defense_ : attribute_value;
  cfg_movement_ : attribute_value;
  wmlcfgs_ : list vconfig;
  vision_filters_viewers_lists_ : list (list Z);
  vision_filters_visible_attr_ : list bool;
  filter_adj_filters_ : list F;
  filter_adj_is_enemy_ : list (option bool);
  filter_adj_dirs_ : list (list DIRECTION);
  filter_adj_counts_ : list (list (Z * Z));
  cfg_find_in_ : attribute_value;
  cfg_formula_ : attribute_value;
  cfg_lua_function_ : attribute_value
}.

(** The two implementations of [unit_filter_abstract_impl]. *)
Inductive unit_filter_abstract_impl :=
| null_unit_filter_impl
| basic_unit_filter_impl (m : basic_members unit_filter_abstract_impl).

Definition unit_filter := unit_filter_abstract_impl.

(** ** Construction

    [FAIL] (wml_exception.hpp) throws; a constructor either yields its object
    or fails with the message given to [FAIL]. *)

Inductive outcome (A : Type) :=
| ok (a : A)
| FAIL (message : string).

Arguments ok {A} a.
Arguments FAIL {A} message.

Definition multiple_filter_location : string :=
  "encountered multiple [filter_location] children of a standard unit filter. this is not currently supported and in all versions of wesnoth would have resulted in the later children being ignored. you must use [and] or similar to achieve the desired result".

Definition multiple_filter_side : string :=
  "encountered multiple [filter_side] children of a standard unit filter. this is not currently supported and in all versions of wesnoth would have resulted in the later children being ignored. you must use [and] or similar to achieve the desired result".

Definition is_fail {A} (r : outcome A) : bool :=
  match r with ok _ => false | FAIL _ => true end.

(** The members the constructor's loop over the ordered children fills. *)
Record collected (F : Type) := {
  k_cond_children : list F;
  k_cond_child_types : list conditional.TYPE;
  k_filter_loc : option terrain_filter;
  k_filter_side : option side_filter;
  k_viewers_lists : list (list Z);
  k_visible_attr : list bool;
  k_adj_filters : list F;
  k_adj_is_enemy : list (option bool);
  k_adj_dirs : list (list DIRECTION);
  k_adj_counts : list (list (Z * Z))
}.

Definition collected_init (F : Type) : collected F :=
  {| k_cond_children := []; k_cond_child_types := [];
     k_filter_loc := None; k_filter_side := None;
     k_viewers_lists := []; k_visible_attr := [];
     k_adj_filters := []; k_adj_is_enemy := [];
     k_adj_dirs := []; k_adj_counts := [] |}.

Section Engine.

Variable lib : library.
Variable fc : filter_context.

Definition push_back {A} (v : list A) (a : A) : list A := v ++ [a].

(** The branches of the constructor's loop that build no nested unit
    filter; [nested] is the unit filter built from the child where the
    branch needs one. *)
Definition add_conditional (F : Type) (k : collected F)
    (type : conditional.TYPE) (nested : F) : collected F :=
  {| k_cond_children := push_back (k_cond_children k) nested;
     k_cond_child_types := push_back (k_cond_child_types k) type;
     k_filter_loc := k_filter_loc k; k_filter_side := k_filter_side k;
     k_viewers_lists := k_viewers_lists k;
     k_visible_attr := k_visible_attr k;
     k_adj_filters := k_adj_filters k; k_adj_is_enemy := k_adj_is_enemy k;
     k_adj_dirs := k_adj_dirs k; k_adj_counts := k_adj_counts k |}.

Definition add_filter_vision (F : Type) (k : collected F) (f : vconfig)
  : collected F :=
  let sides := side_filter_get_teams lib fc f in
  let viewers := set_insert_range [] sides in
  {| k_cond_children := k_cond_children k;
     k_cond_child_types := k_cond_child_types k;
     k_filter_loc := k_filter_loc k; k_filter_side := k_filter_side k;
     k_viewers_lists := push_back (k_viewers_lists k) viewers;
     k_visible_attr :=
       push_back (k_visible_attr k) (to_bool lib (attr f "visible") true);
     k_adj_filters := k_adj_filters k; k_adj_is_enemy := k_adj_is_enemy k;
     k_adj_dirs := k_adj_dirs k; k_adj_counts := k_adj_counts k |}.

Definition default_counts : list (Z * Z) := parse_ranges lib "1-6".

Definition add_filter_adjacent (F : Type) (k : collected F) (f : vconfig)
    (nested : F) : collected F :=
  let i_adjacent := attr f "adjacent" in
  let i_is_enemy := attr f "is_enemy" in
  let i_count := attr f "count" in
  {| k_cond_children := k_cond_children k;
     k_cond_child_types := k_cond_child_types k;
     k_filter_loc := k_filter_loc k; k_filter_side := k_filter_side k;
     k_viewers_lists := k_viewers_lists k;
     k_visible_attr := k_visible_attr k;
     k_adj_filters := push_back (k_adj_filters k) nested;
     k_adj_is_enemy :=
       push_back (k_adj_is_enemy k)
         (if blank i_is_enemy then None
          else Some (to_bool lib i_is_enemy false));
     k_adj_dirs :=
       push_back (k_adj_dirs k)
         (if negb (blank i_adjacent)
          then parse_directions lib (str i_adjacent)
          else default_dirs);
     k_adj_counts :=
       push_back (k_adj_counts k)
         (if negb (blank i_count)
          then parse_ranges lib (str i_count)
          else default_counts) |}.

Definition add_filter_location (F : Type) (k : collected F)
    (child : vconfig) (flat_tod : bool) : outcome (collected F) :=
  match k_filter_loc k with
  | None =>
      ok {| k_cond_children := k_cond_children k;
            k_cond_child_types := k_cond_child_types k;
            k_filter_loc :=
              Some {| tf_cfg := child; tf_flat_tod := flat_tod |};
            k_filter_side := k_filter_side k;
            k_viewers_lists := k_viewers_lists k;
            k_visible_attr := k_visible_attr k;
            k_adj_filters := k_adj_filters k;
            k_adj_is_enemy := k_adj_is_enemy k;
            k_adj_dirs := k_adj_dirs k; k_adj_counts := k_adj_counts k |}
  | Some _ => FAIL multiple_filter_location
  end.

Definition add_filter_side (F : Type) (k : collected F) (child : vconfig)
  : outcome (collected F) :=
  match k_filter_side k with
  | None =>
      ok {| k_cond_children := k_cond_children k;
            k_cond_child_types := k_cond_child_types k;
            k_filter_loc := k_filter_loc k;
            k_filter_side := Some {| sf_cfg := child |};
            k_viewers_lists := k_viewers_lists k;
            k_visible_attr := k_visible_attr k;
            k_adj_filters := k_adj_filters k;
            k_adj_is_enemy := k_adj_is_enemy k;
            k_adj_dirs := k_adj_dirs k; k_adj_counts := k_adj_counts k |}
  | Some _ => FAIL multiple_filter_side
  end.

(** The member initialisers, then the members the loop has filled. *)
Definition initialise (F : Type) (vcfg : vconfig) (flat_tod : bool)
    (k : collected F) : basic_members F :=
  let lsl key := make (attr vcfg key) in
  {| use_flat_tod_ := flat_tod;
     cond_children_ := k_cond_children k;
     cond_child_types_ := k_cond_child_types k;
     cfg_name_ := attr vcfg "name";
     cfg_id_ := lsl "id";
     cfg_speaker_ := attr vcfg "speaker";
     cfg_filter_loc_ := k_filter_loc k;
     cfg_filter_side_ := k_filter_side k;
     cfg_x_ := attr vcfg "x";
     cfg_y_ := attr vcfg "y";
     cfg_type_ := lsl "type";
     cfg_variation_type_ := lsl "variation";
     cfg_has_variation_type_ := lsl "has_variation";
     cfg_ability_ := lsl "ability";
     cfg_race_ := lsl "race";
     cfg_gender_ := attr vcfg "gender";
     cfg_side_ := lsl "side";
     cfg_side_to_int_ := to_int lib (attr vcfg "side") (-999);
     cfg_has_weapon_ := attr vcfg "has_weapon";
     cfg_role_ := attr vcfg "role";
     cfg_ai_special_ := attr vcfg "ai_special";
     cfg_canrecruit_ := attr vcfg "canrecruit";
     cfg_recall_cost_ := attr vcfg "recall_cost";
     cfg_level_ := attr vcfg "level";
     cfg_defense_ := attr vcfg "defense";
     cfg_movement_ := attr vcfg "movement_cost";
     wmlcfgs_ := get_children vcfg "filter_wml";
     vision_filters_viewers_lists_ := k_viewers_lists k;
     vision_filters_visible_attr_ := k_visible_attr k;
     filter_adj_filters_ := k_adj_filters k;
     filter_adj_is_enemy_ := k_adj_is_enemy k;
     filter_adj_dirs_ := k_adj_dirs k;
     filter_adj_counts_ := k_adj_counts k;
     cfg_find_in_ := attr vcfg "find_in";
     cfg_formula_ := attr vcfg "formula";
     cfg_lua_function_ := attr vcfg "lua_function" |}.

(** The constructor's [while (cond != cond_end)] over the ordered children.
    [nested_filter child] stands for [unit_filter(child, &fc_,
    use_flat_tod_)], the filter built from a child block. *)
Section ConstructorLoop.

Variable nested_filter : vconfig -> outcome unit_filter_abstract_impl.
Variable flat_tod : bool.

Fixpoint constructor_loop (cond : list (string * vconfig))
    (k : collected unit_filter_abstract_impl)
  : outcome (collected unit_filter_abstract_impl) :=
  match cond with
  | [] => ok k
  | (cond_name, child) :: cond' =>
      match conditional.string_to_TYPE cond_name with
      | Some type =>
          match nested_filter child with
          | FAIL m => FAIL m
          | ok nested => constructor_loop cond' (add_conditional k type nested)
          end
      | None =>
          if String.eqb cond_name "filter_vision" then
            constructor_loop cond' (add_filter_vision k child)
          else if String.eqb cond_name "filter_adjacent" then
            match nested_filter child with
            | FAIL m => FAIL m
            | ok nested =>
                constructor_loop cond' (add_filter_adjacent k child nested)
            end
          else if String.eqb cond_name "filter_location" then
            match add_filter_location k child flat_tod with
            | FAIL m => FAIL m
            | ok k' => constructor_loop cond' k'
            end
          else if String.eqb cond_name "filter_side" then
            match add_filter_side k child with
            | FAIL m => FAIL m
            | ok k' => constructor_loop cond' k'
            end
          else
            (* [filter_wml] is read by the initialiser of [wmlcfgs_]; any
               other tag is logged and ignored *)
            constructor_loop cond' k
      end
  end.

End ConstructorLoop.

(** [construct], with the constructor of [basic_unit_filter_impl] and of
    [unit_filter] inlined. *)
Fixpoint construct (vcfg : vconfig) (flat_tod : bool) {struct vcfg}
  : outcome unit_filter_abstract_impl :=
  match vcfg with
  | vnull => ok null_unit_filter_impl
  | vnode _ children =>
      match constructor_loop (fun child => construct child flat_tod) flat_tod
                             children (collected_init _) with
      | FAIL m => FAIL m
      | ok k => ok (basic_unit_filter_impl (initialise vcfg flat_tod k))
      end
  end.

End Engine.

(** ** Evaluation

    [matches] calls code with effects of its own: nested filters, the formula
    evaluator and the scripting kernel.  An evaluation therefore yields its
    result together with the calls it made, in the order it made them.  A
    nested filter is named by the path that leads to it from the filter
    queried. *)

Inductive call :=
| cond_child (i : nat)
| adj_filter (i : nat).

(** What a filter does while it evaluates: it calls [matches] on one of its
    nested filters, runs a formula, or runs a scripting function. *)
Inductive action :=
| calls_matches (c : call)
| runs_formula (formula : string)
| runs_lua (function : string).

(** An event: the path to the filter that acts, and its action. *)
Definition event : Type := list call * action.

Definition eval (A : Type) : Type := A * list event.

Definition ret {A} (a : A) : eval A := (a, []).

Definition bind {A B} (m : eval A) (k : A -> eval B) : eval B :=
  let '(a, t1) := m in
  let '(b, t2) := k a in
  (b, (t1 ++ t2)%list).

Definition tell (a : action) : eval Datatypes.unit := (tt, [([], a)]).

Definition value {A} (m : eval A) : A := fst m.
Definition trace {A} (m : eval A) : list event := snd m.

Declare Scope eval_scope.
Delimit Scope eval_scope with eval.
Notation "x <- m ;; k" := (bind m (fun x => k))
  (at level 100, m at next level, right associativity) : eval_scope.
Notation "m ;;; k" := (bind m (fun _ => k))
  (at level 100, right associativity) : eval_scope.

Definition under (c : call) (e : event) : event := (c :: fst e, snd e).

(** A call of [matches] on the nested filter [c]; [m] is what that call
    does. *)
Definition call_nested {A} (c : call) (m : eval A) : eval A :=
  (value m, ([], calls_matches c) :: map (under c) (trace m)).

Definition call_eqb (a b : call) : bool :=
  match a, b with
  | cond_child i, cond_child j => Nat.eqb i j
  | adj_filter i, adj_filter j => Nat.eqb i j
  | _, _ => false
  end.

(** How often the filter queried called [matches] on its nested filter
    [c]. *)
Definition is_call_of (c : call) (e : event) : bool :=
  match e with
  | ([], calls_matches c') => call_eqb c c'
  | _ => false
  end.

Definition evaluations (c : call) (t : list event) : nat :=
  List.length (filter (is_call_of c) t).

Section Evaluator.

Variable lib : library.
Variable fc : filter_context.

Local Open Scope eval_scope.

(** The views of a [lazy_string_list] member the checks use. *)
Definition lsl_get (l : lazy_string_list) : list string :=
  fst (fst (get (split lib) l)).
Definition lsl_empty (l : lazy_string_list) : bool :=
  fst (fst (empty (split lib) l)).
Definition lsl_find (l : lazy_string_list) (s : string) : bool :=
  fst (fst (find (split lib) l s)).

(** The check on [x] and [y]; [true] is "return false". *)
Definition xy_fails (cfg_x cfg_y : attribute_value) (loc : map_location)
  : bool :=
  if negb (blank cfg_x) || negb (blank cfg_y) then
    if attr_eq cfg_x "recall" && attr_eq cfg_y "recall" then
      on_board fc loc
    else if attr_empty cfg_x && attr_empty cfg_y then true
    else negb (matches_range lib loc (str cfg_x) (str cfg_y))
  else false.

(** One [filter_wml] entry. *)
Definition wml_matches (u : unit) (vc : vconfig) : bool :=
  match vc with
  | vnode [] [(key, cfg)] =>
      if String.eqb key "variables"
      then config_matches lib (variables u) cfg
      else config_matches lib (write u) vc
  | fwml => config_matches lib (write u) fwml
  end.

(** One [filter_vision] entry: is some viewer's view as required. *)
Definition unit_hidden (u : unit) (loc : map_location) (viewer : Z) : bool :=
  let fogged := fogged (team_of fc viewer) loc in
  let hiding := invisible u loc in
  fogged || hiding.

Definition vision_found (u : unit) (loc : map_location)
    (viewers : list Z) (visible : bool) : bool :=
  existsb (fun viewer => negb (Bool.eqb visible (unit_hidden u loc viewer)))
          viewers.

(** One [filter_adjacent] entry.  [nested u'] is the call
    [filter_adj_filters_[i](u')]. *)
Definition adjacent_counts (u : unit) (loc : map_location) (i : nat)
    (nested : unit -> eval bool) (is_enemy_req : option bool)
    (j : DIRECTION) (match_count : Z) : eval Z :=
  match units_find fc (get_adjacent_tiles lib loc j) with
  | None => ret match_count
  | Some unit_itor =>
      b <- call_nested (adj_filter i) (nested unit_itor) ;;
      if negb b then ret match_count
      else
        match is_enemy_req with
        | None => ret (match_count + 1)
        | Some e =>
            if Bool.eqb e (is_enemy (team_of fc (side u)) (side unit_itor))
            then ret (match_count + 1)
            else ret match_count
        end
  end.

Fixpoint count_adjacent (u : unit) (loc : map_location) (i : nat)
    (nested : unit -> eval bool) (is_enemy_req : option bool)
    (dirs : list DIRECTION) (match_count : Z) : eval Z :=
  match dirs with
  | [] => ret match_count
  | j :: dirs' =>
      n <- adjacent_counts u loc i nested is_enemy_req j match_count ;;
      count_adjacent u loc i nested is_enemy_req dirs' n
  end.

(** The loop over the adjacency entries; the four vectors have one size. *)
Fixpoint adjacent_pass (u : unit) (loc : map_location) (i : nat)
    (filters : list (unit -> eval bool)) (is_enemy_ : list (option bool))
    (dirs_ : list (list DIRECTION)) (counts_ : list (list (Z * Z)))
  : eval bool :=
  match filters, is_enemy_, dirs_, counts_ with
  | nested :: filters', e :: is_enemy', dirs :: dirs', counts :: counts' =>
      match_count <- count_adjacent u loc i nested e dirs 0 ;;
      if negb (in_ranges match_count counts) then ret false
      else adjacent_pass u loc (S i) filters' is_enemy' dirs' counts'
  | _, _, _, _ => ret true
  end.

(** The check on [find_in]; [true] is "return false". *)
Definition find_in_fails (cfg_find_in : attribute_value) (u : unit) : bool :=
  if negb (blank cfg_find_in) then
    match get_game_data fc with
    | Some gd =>
        match get_variable_access_read gd (str cfg_find_in) with
        | Some as_array =>
            negb (existsb (fun c => attr_eq (attr c "id") (id u)) as_array)
        | None => true
        end
    | None => false
    end
  else false.

(** The checks from [formula] on. *)
Definition formula_and_lua (cfg_formula cfg_lua_function : attribute_value)
    (u : unit) (loc : map_location) : eval bool :=
  formula_ok <-
    (if negb (blank cfg_formula) then
       tell (runs_formula (str cfg_formula)) ;;;
       ret (formula_matches_filter lib (str cfg_formula) loc u)
     else ret true) ;;
  if negb formula_ok then ret false
  else
    if negb (blank cfg_lua_function) then
      match get_lua_kernel fc with
      | Some lk =>
          tell (runs_lua (str cfg_lua_function)) ;;;
          ret (run_filter lk (str cfg_lua_function) u)
      | None => ret true
      end
    else ret true.

End Evaluator.

Section Matcher.

Variable lib : library.
Variable fc : filter_context.

Local Open Scope eval_scope.

(** [basic_unit_filter_impl::internal_matches_filter].  [nested] holds,
    for every entry of [filter_adj_filters_], the call of that filter on a
    unit. *)
Definition internal_matches_filter (F : Type) (m : basic_members F)
    (nested : list (unit -> eval bool)) (u : unit) (loc : map_location)
  : eval bool :=
  if negb (blank (cfg_name_ m))
     && negb (String.eqb (str (cfg_name_ m)) (name u)) then ret false else
  if negb (lsl_empty lib (cfg_id_ m))
     && negb (lsl_find lib (cfg_id_ m) (id u)) then ret false else
  if negb (blank (cfg_speaker_ m))
     && negb (String.eqb (str (cfg_speaker_ m)) (id u)) then ret false else
  if match cfg_filter_loc_ m with
     | Some tf =>
         negb (terrain_filter_match lib fc (tf_cfg tf) (tf_flat_tod tf) loc)
     | None => false
     end then ret false else
  if match cfg_filter_side_ m with
     | Some sf => negb (side_filter_match lib fc (sf_cfg sf) (side u))
     | None => false
     end then ret false else
  if xy_fails lib fc (cfg_x_ m) (cfg_y_ m) loc then ret false else
  if negb (lsl_empty lib (cfg_type_ m))
     && negb (lsl_find lib (cfg_type_ m) (type_id u)) then ret false else
  if negb (lsl_empty lib (cfg_variation_type_ m))
     && negb (lsl_find lib (cfg_variation_type_ m) (variation u))
  then ret false else
  if negb (lsl_empty lib (cfg_has_variation_type_ m))
     && negb (let type :=
                if String.eqb (variation u) "" then type u else base_type u in
              existsb (has_variation type)
                      (lsl_get lib (cfg_has_variation_type_ m)))
  then ret false else
  if negb (lsl_empty lib (cfg_ability_ m))
     && negb (existsb (has_ability_by_id u) (lsl_get lib (cfg_ability_ m)))
  then ret false else
  if negb (lsl_empty lib (cfg_race_ m))
     && negb (lsl_find lib (cfg_race_ m) (race_id u)) then ret false else
  if negb (blank (cfg_gender_ m))
     && negb (gender_eqb (string_gender lib (str (cfg_gender_ m))) (gender u))
  then ret false else
  if negb (lsl_empty lib (cfg_side_ m))
     && negb (cfg_side_to_int_ m =? side u)
     && negb (lsl_find lib (cfg_side_ m) (str_cast lib (side u)))
  then ret false else
  if negb (blank (cfg_has_weapon_ m))
     && negb (let weapon := str (cfg_has_weapon_ m) in
              existsb (fun i => String.eqb i weapon) (attacks u))
  then ret false else
  if negb (blank (cfg_role_ m))
     && negb (String.eqb (str (cfg_role_ m)) (get_role u)) then ret false else
  if negb (blank (cfg_ai_special_ m))
     && negb (Bool.eqb (String.eqb (str (cfg_ai_special_ m)) "guardian")
                       (state_guardian u)) then ret false else
  if negb (blank (cfg_canrecruit_ m))
     && negb (Bool.eqb (to_bool lib (cfg_canrecruit_ m) false) (can_recruit u))
  then ret false else
  if negb (blank (cfg_recall_cost_ m))
     && negb (to_int lib (cfg_recall_cost_ m) (-1) =? recall_cost u)
  then ret false else
  if negb (blank (cfg_level_ m))
     && negb (to_int lib (cfg_level_ m) (-1) =? level u) then ret false else
  if negb (blank (cfg_defense_ m))
     && negb (to_int lib (cfg_defense_ m) (-1)
              =? defense_modifier u (get_terrain fc loc)) then ret false else
  if negb (blank (cfg_movement_ m))
     && negb (to_int lib (cfg_movement_ m) (-1)
              =? movement_cost u (get_terrain fc loc)) then ret false else
  if negb (forallb (wml_matches lib u) (wmlcfgs_ m)) then ret false else
  if negb (forallb (fun vf => vision_found fc u loc (fst vf) (snd vf))
                   (combine (vision_filters_viewers_lists_ m)
                            (vision_filters_visible_attr_ m)))
  then ret false else
  adjacent_ok <-
    adjacent_pass lib fc u loc 0 nested (filter_adj_is_enemy_ m)
                  (filter_adj_dirs_ m) (filter_adj_counts_ m) ;;
  if negb adjacent_ok then ret false else
  if find_in_fails fc (cfg_find_in_ m) u then ret false else
  formula_and_lua lib fc (cfg_formula_ m) (cfg_lua_function_ m) u loc.

(** The loop over [cond_children_] in [matches]: [children] holds the call
    [cond_children_[i].matches(u, loc)] of every entry, [i] is the index
    of the first of them, [matches] the accumulator. *)
Fixpoint fold_conditions (children : list (eval bool))
    (types : list conditional.TYPE) (i : nat) (matches : bool)
  : eval bool :=
  match children, types with
  | child :: children', type :: types' =>
      matches' <-
        match type with
        | conditional.AND =>
            if matches then call_nested (cond_child i) child else ret false
        | conditional.OR =>
            if matches then ret true else call_nested (cond_child i) child
        | conditional.NOT =>
            if matches
            then b <- call_nested (cond_child i) child ;; ret (negb b)
            else ret false
        end ;;
      fold_conditions children' types' (S i) matches'
  | _, _ => ret matches
  end.

(** [unit_filter_abstract_impl::matches], for both implementations.  The
    scoped variable [this_unit] the first branch sets up lives in the
    variable store of the game, outside the filter. *)
Fixpoint matches (f : unit_filter_abstract_impl) (u : unit)
    (loc : map_location) {struct f} : eval bool :=
  match f with
  | null_unit_filter_impl => ret true
  | basic_unit_filter_impl m =>
      let nested :=
        map (fun g u' => matches g u' (get_location u'))
            (filter_adj_filters_ m) in
      matches0 <-
        (if valid lib loc
         then internal_matches_filter m nested u loc
         else internal_matches_filter m nested u loc) ;;
      fold_conditions (map (fun c => matches c u loc) (cond_children_ m))
                      (cond_child_types_ m) 0 matches0
  end.

(** [unit_filter::matches(const unit &)] *)
Definition matches_unit (f : unit_filter) (u : unit) : eval bool :=
  matches f u (get_location u).

(** Modelled from the spec: [unit_map] is declared in unit_map.hpp, outside
    unit_filter.cpp; the world exposes an ordered entity collection, and an
    iterator is a position in it.  A call returning [unit_const_ptr] comes to a
    pointer, empty ([None]) or not, or to the dereference of [units().end()],
    the position that holds no unit to take a pointer from. *)
Inductive returned :=
| shared_ptr (p : option unit)
| dereferences_end.

(** [begin().get_shared_ptr()]: in a world without units [begin()] is
    [end()]. *)
Definition begin_get_shared_ptr (units : list unit) : returned :=
  match units with
  | [] => dereferences_end
  | u :: _ => shared_ptr (Some u)
  end.

Fixpoint all_matches_loop (f : unit_filter_abstract_impl) (us : list unit)
    (ret_ : list unit) : eval (list unit) :=
  match us with
  | [] => ret ret_
  | u :: us' =>
      b <- matches f u (get_location u) ;;
      all_matches_loop f us' (if b then push_back ret_ u else ret_)
  end.

Definition all_matches_on_map (f : unit_filter_abstract_impl)
  : eval (list unit) :=
  match f with
  | null_unit_filter_impl =>
      ret (fold_left (fun ret_ u => push_back ret_ u) (units fc) [])
  | basic_unit_filter_impl _ => all_matches_loop f (units fc) []
  end.

Fixpoint first_match_loop (f : unit_filter_abstract_impl) (us : list unit)
  : eval returned :=
  match us with
  | [] => ret (shared_ptr None)
  | u :: us' =>
      b <- matches f u (get_location u) ;;
      if b then ret (shared_ptr (Some u)) else first_match_loop f us'
  end.

Definition first_match_on_map (f : unit_filter_abstract_impl)
  : eval returned :=
  match f with
  | null_unit_filter_impl => ret (begin_get_shared_ptr (units fc))
  | basic_unit_filter_impl _ => first_match_loop f (units fc)
  end.

End Matcher.

(** ** A library and a world to run the filter on

    Stand-ins for the code behind [library], written after what that code
    does on plain input, and a small world.  They serve the examples; the
    theorems hold for every library and world. *)

Module Sample.

Definition is_space (c : ascii) : bool :=
  let n := nat_of_ascii c in
  Nat.eqb n 32 || (Nat.leb 9 n && Nat.leb n 13).

Fixpoint drop_spaces (s : list ascii) : list ascii :=
  match s with
  | c :: s' => if is_space c then drop_spaces s' else s
  | [] => []
  end.

Definition strip (s : string) : string :=
  string_of_list_ascii
    (rev (drop_spaces (rev (drop_spaces (list_ascii_of_string s))))).

(** The pieces of [s] between the separators; at least one piece. *)
Fixpoint pieces (sep : ascii) (s : string) : list string :=
  match s with
  | EmptyString => [EmptyString]
  | String c s' =>
      if Ascii.eqb c sep then EmptyString :: pieces sep s'
      else match pieces sep s' with
           | h :: t => String c h :: t
           | [] => [String c EmptyString]
           end
  end.

(** [utils::split] with its default arguments: split at commas, strip the
    spaces around every piece, drop the pieces left empty. *)
Definition split_commas (s : string) : list string :=
  filter (fun p => negb (String.eqb p "")) (map strip (pieces "," s)).

Definition digit (c : ascii) : option Z :=
  let n := Z.of_nat (nat_of_ascii c) in
  if (48 <=? n) && (n <=? 57) then Some (n - 48) else None.

Fixpoint digits (s : string) (acc : Z) : option Z :=
  match s with
  | EmptyString => Some acc
  | String c s' =>
      match digit c with
      | Some d => digits s' (10 * acc + d)
      | None => None
      end
  end.

Definition number (s : string) : option Z :=
  match s with
  | EmptyString => None
  | String c s' =>
      if Ascii.eqb c "-"
      then match s' with
           | EmptyString => None
           | _ => option_map Z.opp (digits s' 0)
           end
      else digits s 0
  end.

Definition range_of (s : string) : list (Z * Z) :=
  match map number (pieces "-" s) with
  | [Some a] => [(a, a)]
  | [Some a; Some b] => [(a, b)]
  | _ => []
  end.

Definition ranges (s : string) : list (Z * Z) :=
  flat_map range_of (split_commas s).

Definition direction_of (s : string) : list DIRECTION :=
  if String.eqb s "n" then [NORTH]
  else if String.eqb s "ne" then [NORTH_EAST]
  else if String.eqb s "se" then [SOUTH_EAST]
  else if String.eqb s "s" then [SOUTH]
  else if String.eqb s "sw" then [SOUTH_WEST]
  else if String.eqb s "nw" then [NORTH_WEST]
  else [].

Definition int_of (a : attribute_value) (def : Z) : Z :=
  match number (str a) with Some n => n | None => def end.

Definition bool_of (a : attribute_value) (def : bool) : bool :=
  let s := str a in
  if String.eqb s "yes" || String.eqb s "true" then true
  else if String.eqb s "no" || String.eqb s "false" then false
  else def.

Fixpoint decimal (fuel : nat) (n : Z) (acc : string) : string :=
  match fuel with
  | O => acc
  | S fuel' =>
      let d := ascii_of_nat (Z.to_nat (48 + n mod 10)) in
      if n <? 10 then String d acc else decimal fuel' (n / 10) (String d acc)
  end.

Definition text_of (n : Z) : string :=
  if n <? 0 then String "-" (decimal 20 (- n) "") else decimal 20 n "".

(** A coordinate against one range of a description, which counts from 1;
    an empty text asks for nothing. *)
Definition coordinate_in (v : Z) (s : string) : bool :=
  if String.eqb s "" then true
  else match map number (pieces "-" s) with
       | [Some a] => v =? a - 1
       | [Some a; Some b] => (a - 1 <=? v) && (v <=? b - 1)
       | _ => false
       end.

Definition in_xy (loc : map_location) (xs ys : string) : bool :=
  coordinate_in (x loc) xs && coordinate_in (y loc) ys.

Definition adjacent (loc : map_location) (d : DIRECTION) : map_location :=
  let even := Z.even (x loc) in
  let up := if even then 1 else 0 in
  let down := if even then 0 else 1 in
  match d with
  | NORTH => {| x := x loc; y := y loc - 1 |}
  | NORTH_EAST => {| x := x loc + 1; y := y loc - up |}
  | SOUTH_EAST => {| x := x loc + 1; y := y loc + down |}
  | SOUTH => {| x := x loc; y := y loc + 1 |}
  | SOUTH_WEST => {| x := x loc - 1; y := y loc + down |}
  | NORTH_WEST => {| x := x loc - 1; y := y loc - up |}
  end.

Definition sides_of (f : vconfig) : list Z :=
  flat_map (fun s => match number s with Some n => [n] | None => [] end)
           (split_commas (str (attr f "side"))).

Definition attributes_agree (c f : config) : bool :=
  match f with
  | vnull => true
  | vnode attrs _ =>
      forallb (fun kv => attr_eq (attr c (fst kv)) (snd kv)) attrs
  end.

Definition lib : library :=
  {| split := split_commas;
     parse_ranges := ranges;
     parse_directions := fun s => flat_map direction_of (split_commas s);
     to_int := int_of;
     to_bool := bool_of;
     string_gender := fun s => if String.eqb s "female" then FEMALE else MALE;
     str_cast := text_of;
     valid := fun loc => (0 <=? x loc) && (0 <=? y loc);
     matches_range := in_xy;
     get_adjacent_tiles := adjacent;
     terrain_filter_match :=
       fun _ f _ loc => in_xy loc (str (attr f "x")) (str (attr f "y"));
     side_filter_match :=
       fun _ f s => existsb (Z.eqb s) (sides_of f);
     side_filter_get_teams := fun _ f => sides_of f;
     config_matches := attributes_agree;
     formula_matches_filter := fun f _ _ => negb (String.eqb f "0") |}.

Definition plain_type : unit_type :=
  {| base_id := "Spearman"; has_variation := fun _ => false |}.

Definition soldier (name_ id_ : string) (side_ x_ y_ : Z) : unit :=
  {| name := name_; id := id_; side := side_;
     get_location := {| x := x_; y := y_ |};
     type_id := "Spearman"; variation := "";
     type := plain_type; base_type := plain_type;
     has_ability_by_id := fun _ => false;
     race_id := "human"; gender := MALE;
     attacks := ["spear"; "javelin"];
     get_role := ""; state_guardian := false; can_recruit := false;
     recall_cost := 14; level := 1;
     defense_modifier := fun _ => 60; movement_cost := fun _ => 1;
     variables := vnode [] [];
     write := vnode [("id", id_); ("name", name_); ("type", "Spearman")] [];
     invisible := fun _ => false |}.

Definition konrad : unit := soldier "Konrad" "u1" 1 4 7.
Definition delfador : unit := soldier "Delfador" "u2" 1 10 10.
Definition raider : unit := soldier "Raider" "u3" 2 4 8.

(** Side 1 sees everything; side 2 has fog on the hex of [konrad]. *)
Definition team1 : team :=
  {| fogged := fun _ => false; is_enemy := fun s => s =? 2 |}.
Definition team2 : team :=
  {| fogged := fun loc => loc_eqb loc {| x := 4; y := 7 |};
     is_enemy := fun s => s =? 1 |}.

(** A world without game data and without a scripting kernel. *)
Definition fc : filter_context :=
  {| units := [konrad; delfador; raider];
     teams := [team1; team2];
     on_board := fun loc =>
       (0 <=? x loc) && (x loc <? 20) && (0 <=? y loc) && (y loc <? 20);
     get_terrain := fun _ => 0;
     get_game_data := None;
     get_lua_kernel := None |}.

(** The same world before any unit is placed. *)
Definition fc_no_units : filter_context :=
  {| units := [];
     teams := [team1; team2];
     on_board := on_board fc;
     get_terrain := get_terrain fc;
     get_game_data := None;
     get_lua_kernel := None |}.

(** Descriptions. *)
Definition leaf (attrs : list (string * string)) : vconfig := vnode attrs [].

(** [name=Nobody] with [[and] name=Nobody] and [[or] id=u1]. *)
Definition and_then_or : vconfig :=
  vnode [("name", "Nobody")]
        [("and", leaf [("name", "Nobody")]); ("or", leaf [("id", "u1")])].

(** [name=Nobody] with one [[and]] child that would match anything. *)
Definition and_after_failure : vconfig :=
  vnode [("name", "Nobody")] [("and", leaf [])].

Definition two_locations : vconfig :=
  vnode [] [("filter_location", leaf [("x", "5")]);
            ("filter_location", leaf [("y", "8")])].

Definition one_location : vconfig :=
  vnode [] [("filter_location", leaf [("x", "5")]);
            ("filter_side", leaf [("side", "1")])].

Definition x_only : vconfig := leaf [("x", "5")].

Definition hidden_from_2 : vconfig :=
  vnode [] [("filter_vision", leaf [("side", "2"); ("visible", "no")])].

Definition enemy_to_the_south : vconfig :=
  vnode [] [("filter_adjacent",
             leaf [("adjacent", "s"); ("is_enemy", "yes"); ("count", "1")])].

Definition any_neighbour : vconfig :=
  vnode [] [("filter_adjacent", leaf [])].

Definition found_in_store : vconfig := leaf [("find_in", "heroes"); ("id", "u1")].

(** One neighbour asked for, the direction south given twice. *)
Definition south_twice : vconfig :=
  vnode [] [("filter_adjacent", leaf [("adjacent", "s,s"); ("count", "1")])].

(** Nobody is hidden from both side 1 and side 2. *)
Definition hidden_from_1_or_2 : vconfig :=
  vnode [] [("filter_vision", leaf [("side", "1,2"); ("visible", "no")])].

(** A unit on the recall list, off the board. *)
Definition recalled : unit := soldier "Kalenz" "u4" 1 (-999) (-999).

Definition on_recall_list : vconfig := leaf [("x", "recall"); ("y", "recall")].

(** What [construct] built, or the null filter where it failed. *)
Definition built (vcfg : vconfig) : unit_filter :=
  match construct lib fc vcfg false with
  | ok f => f
  | FAIL _ => null_unit_filter_impl
  end.

End Sample.

(** ** The properties, in the words of the specification *)

Section Properties.

Variable lib : library.
Variable fc : filter_context.

(** [internal_matches_filter(u, loc)] as a member call on a basic filter:
    the nested adjacency filters are called through [matches]. *)
Definition local_predicate (m : basic_members unit_filter_abstract_impl)
    (u : unit) (loc : map_location) : eval bool :=
  internal_matches_filter lib fc m
    (map (fun g u' => matches lib fc g u' (get_location u'))
         (filter_adj_filters_ m))
    u loc.

(** The combinator entries of a basic filter at a query: every type with
    the result of its child. *)
Definition combinator_entries (m : basic_members unit_filter_abstract_impl)
    (u : unit) (loc : map_location) : list (conditional.TYPE * bool) :=
  combine (cond_child_types_ m)
          (map (fun c => value (matches lib fc c u loc)) (cond_children_ m)).

(** One step of the fold of section 4.4. *)
Definition combinator_step (acc : bool) (entry : conditional.TYPE * bool)
  : bool :=
  match fst entry with
  | conditional.AND => acc && snd entry
  | conditional.OR => acc || snd entry
  | conditional.NOT => acc && negb (snd entry)
  end.

(** The accumulator when the entry of index [i] is reached. *)
Definition accumulator_at (m : basic_members unit_filter_abstract_impl)
    (u : unit) (loc : map_location) (i : nat) : bool :=
  fold_left combinator_step (firstn i (combinator_entries m u loc))
            (value (local_predicate m u loc)).

(** Whether the operator needs the result of its child, given the
    accumulator it meets. *)
Definition needs_child (type : conditional.TYPE) (acc : bool) : bool :=
  match type with
  | conditional.OR => negb acc
  | conditional.AND | conditional.NOT => acc
  end.

(** A neighbour in direction [j] counts for an adjacency entry. *)
Definition qualifies (u : unit) (loc : map_location)
    (nested : unit -> eval bool) (is_enemy_req : option bool)
    (j : DIRECTION) : bool :=
  match units_find fc (get_adjacent_tiles lib loc j) with
  | None => false
  | Some neighbour =>
      value (nested neighbour)
      && match is_enemy_req with
         | None => true
         | Some e =>
             Bool.eqb e (is_enemy (team_of fc (side u)) (side neighbour))
         end
  end.

Definition qualifying_neighbours (u : unit) (loc : map_location)
    (nested : unit -> eval bool) (is_enemy_req : option bool)
    (dirs : list DIRECTION) : Z :=
  Z.of_nat (List.length (filter (qualifies u loc nested is_enemy_req) dirs)).

(** The neighbour hex in direction [j] holds a unit. *)
Definition occupied (loc : map_location) (j : DIRECTION) : bool :=
  match units_find fc (get_adjacent_tiles lib loc j) with
  | Some _ => true
  | None => false
  end.

(** The entity is visible to the viewer: neither fogged nor hiding. *)
Definition visible_to (u : unit) (loc : map_location) (viewer : Z) : bool :=
  negb (fogged (team_of fc viewer) loc || invisible u loc).

(** The entities of the world the filter matches, in iteration order. *)
Definition matching_units (f : unit_filter) : list unit :=
  filter (fun u => value (matches lib fc f u (get_location u))) (units fc).

End Properties.

(** A description node repeats a single-use block: it has two or more
    [filter_location] children or two or more [filter_side] children. *)
Definition count_blocks (key : string) (cs : list (string * vconfig)) : nat :=
  List.length (filter (fun kc => String.eqb (fst kc) key) cs).

Definition repeats_single_use_block (cs : list (string * vconfig)) : bool :=
  Nat.leb 2 (count_blocks "filter_location" cs)
  || Nat.leb 2 (count_blocks "filter_side" cs).

(** The child blocks that are filter nodes themselves. *)
Definition is_filter_node_tag (key : string) : bool :=
  match conditional.string_to_TYPE key with
  | Some _ => true
  | None => String.eqb key "filter_adjacent"
  end.

(** Some filter node of the description repeats a single-use block. *)
Fixpoint some_node_repeats (vcfg : vconfig) : bool :=
  match vcfg with
  | vnull => false
  | vnode _ cs =>
      repeats_single_use_block cs
      || existsb (fun kc => let '(key, child) := kc in
                            is_filter_node_tag key && some_node_repeats child)
                 cs
  end.

(** The description without one attribute, and the compiled filter without
    its [find_in]. *)
Definition without_attribute (key : string) (vcfg : vconfig) : vconfig :=
  match vcfg with
  | vnull => vnull
  | vnode attrs cs =>
      vnode (filter (fun kv => negb (String.eqb (fst kv) key)) attrs) cs
  end.

Definition without_find_in (F : Type) (m : basic_members F) : basic_members F :=
  {| use_flat_tod_ := use_flat_tod_ m;
     cond_children_ := cond_children_ m;
     cond_child_types_ := cond_child_types_ m;
     cfg_name_ := cfg_name_ m;
     cfg_id_ := cfg_id_ m;
     cfg_speaker_ := cfg_speaker_ m;
     cfg_filter_loc_ := cfg_filter_loc_ m;
     cfg_filter_side_ := cfg_filter_side_ m;
     cfg_x_ := cfg_x_ m;
     cfg_y_ := cfg_y_ m;
     cfg_type_ := cfg_type_ m;
     cfg_variation_type_ := cfg_variation_type_ m;
     cfg_has_variation_type_ := cfg_has_variation_type_ m;
     cfg_ability_ := cfg_ability_ m;
     cfg_race_ := cfg_race_ m;
     cfg_gender_ := cfg_gender_ m;
     cfg_side_ := cfg_side_ m;
     cfg_side_to_int_ := cfg_side_to_int_ m;
     cfg_has_weapon_ := cfg_has_weapon_ m;
     cfg_role_ := cfg_role_ m;
     cfg_ai_special_ := cfg_ai_special_ m;
     cfg_canrecruit_ := cfg_canrecruit_ m;
     cfg_recall_cost_ := cfg_recall_cost_ m;
     cfg_level_ := cfg_level_ m;
     cfg_defense_ := cfg_defense_ m;
     cfg_movement_ := cfg_movement_ m;
     wmlcfgs_ := wmlcfgs_ m;
     vision_filters_viewers_lists_ := vision_filters_viewers_lists_ m;
     vision_filters_visible_attr_ := vision_filters_visible_attr_ m;
     filter_adj_filters_ := filter_adj_filters_ m;
     filter_adj_is_enemy_ := filter_adj_is_enemy_ m;
     filter_adj_dirs_ := filter_adj_dirs_ m;
     filter_adj_counts_ := filter_adj_counts_ m;
     cfg_find_in_ := None;
     cfg_formula_ := cfg_formula_ m;
     cfg_lua_function_ := cfg_lua_function_ m |}.

(** How many blocks of a single-use kind the loop has taken so far. *)
Definition taken (A : Type) (o : option A) : nat :=
  match o with Some _ => 1%nat | None => 0%nat end.

Definition loop_must_fail (cs : list (string * vconfig))
    (k : collected unit_filter_abstract_impl) : bool :=
  Nat.leb 2 (count_blocks "filter_location" cs + taken (k_filter_loc k))
  || Nat.leb 2 (count_blocks "filter_side" cs + taken (k_filter_side k))
  || existsb (fun kc => let '(key, child) := kc in
                        is_filter_node_tag key && some_node_repeats child) cs.

(** Induction over a description and the children of its nodes. *)
Section VconfigInduction.

Variable P : vconfig -> Prop.
Hypothesis P_null : P vnull.
Hypothesis P_node :
  forall attrs cs, Forall (fun kc => P (snd kc)) cs -> P (vnode attrs cs).

Fixpoint vconfig_children_ind (vcfg : vconfig) : P vcfg :=
  match vcfg with
  | vnull => P_null
  | vnode attrs cs =>
      P_node attrs
        ((fix children (cs : list (string * vconfig))
            : Forall (fun kc => P (snd kc)) cs :=
            match cs with
            | [] => Forall_nil _
            | kc :: cs' =>
                Forall_cons kc (vconfig_children_ind (snd kc)) (children cs')
            end) cs)
  end.

End VconfigInduction.

(** ** What the constructor collects, tag by tag *)

(** The child blocks with one tag, in description order. *)
Definition tagged (tag : string) (cs : list (string * vconfig))
  : list vconfig :=
  map snd (filter (fun kc => String.eqb (fst kc) tag) cs).

Definition is_conditional (kc : string * vconfig) : bool :=
  match conditional.string_to_TYPE (fst kc) with
  | Some _ => true
  | None => false
  end.

(** The types of the [and], [or] and [not] children, and the children
    themselves, in description order. *)
Definition conditional_types (cs : list (string * vconfig))
  : list conditional.TYPE :=
  flat_map (fun kc => match conditional.string_to_TYPE (fst kc) with
                      | Some type => [type]
                      | None => []
                      end) cs.

Definition conditional_children (cs : list (string * vconfig)) : list vconfig :=
  map snd (filter is_conditional cs).

(** What the constructor reads off one [filter_vision] or [filter_adjacent]
    child. *)
Definition viewers_of (lib : library) (fc : filter_context) (f : vconfig)
  : list Z :=
  set_insert_range [] (side_filter_get_teams lib fc f).

Definition visible_of (lib : library) (f : vconfig) : bool :=
  to_bool lib (attr f "visible") true.

Definition is_enemy_of (lib : library) (f : vconfig) : option bool :=
  if blank (attr f "is_enemy") then None
  else Some (to_bool lib (attr f "is_enemy") false).

Definition dirs_of (lib : library) (f : vconfig) : list DIRECTION :=
  if blank (attr f "adjacent") then default_dirs
  else parse_directions lib (str (attr f "adjacent")).

Definition counts_of (lib : library) (f : vconfig) : list (Z * Z) :=
  if blank (attr f "count") then parse_ranges lib "1-6"
  else parse_ranges lib (str (attr f "count")).

(** The first block with a single-use tag, if there is one. *)
Definition first_tagged (tag : string) (cs : list (string * vconfig))
  : option vconfig :=
  hd_error (tagged tag cs).

(** A single-use member keeps the block it has. *)
Definition keep_or (A : Type) (o o' : option A) : option A :=
  match o with Some a => Some a | None => o' end.

(** The tags the constructor reads; a child with any other tag is logged and
    ignored. *)
Definition known_tag (kc : string * vconfig) : bool :=
  is_conditional kc
  || String.eqb (fst kc) "filter_vision"
  || String.eqb (fst kc) "filter_adjacent"
  || String.eqb (fst kc) "filter_location"
  || String.eqb (fst kc) "filter_side"
  || String.eqb (fst kc) "filter_wml".

(** The attributes the member initialisers read. *)
Definition filter_keys : list string :=
  ["name"; "id"; "speaker"; "x"; "y"; "type"; "variation"; "has_variation";
   "ability"; "race"; "gender"; "side"; "has_weapon"; "role"; "ai_special";
   "canrecruit"; "recall_cost"; "level"; "defense"; "movement_cost";
   "find_in"; "formula"; "lua_function"].

(** The vectors a filter indexes side by side have one size, in the filter
    and in every filter nested in it, and every filter carries the
    [flat_tod] it was built with. *)
Fixpoint well_sized (flat_tod : bool) (f : unit_filter_abstract_impl) : bool :=
  match f with
  | null_unit_filter_impl => true
  | basic_unit_filter_impl m =>
      Bool.eqb (use_flat_tod_ m) flat_tod
      && Nat.eqb (List.length (cond_children_ m))
                 (List.length (cond_child_types_ m))
      && Nat.eqb (List.length (vision_filters_viewers_lists_ m))
                 (List.length (vision_filters_visible_attr_ m))
      && Nat.eqb (List.length (filter_adj_filters_ m))
                 (List.length (filter_adj_is_enemy_ m))
      && Nat.eqb (List.length (filter_adj_filters_ m))
                 (List.length (filter_adj_dirs_ m))
      && Nat.eqb (List.length (filter_adj_filters_ m))
                 (List.length (filter_adj_counts_ m))
      && forallb (well_sized flat_tod) (cond_children_ m)
      && forallb (well_sized flat_tod) (filter_adj_filters_ m)
  end.

(** The compiled filter without its [x] and [y]. *)
Definition without_xy (F : Type) (m : basic_members F) : basic_members F :=
  {| use_flat_tod_ := use_flat_tod_ m;
     cond_children_ := cond_children_ m;
     cond_child_types_ := cond_child_types_ m;
     cfg_name_ := cfg_name_ m;
     cfg_id_ := cfg_id_ m;
     cfg_speaker_ := cfg_speaker_ m;
     cfg_filter_loc_ := cfg_filter_loc_ m;
     cfg_filter_side_ := cfg_filter_side_ m;
     cfg_x_ := None;
     cfg_y_ := None;
     cfg_type_ := cfg_type_ m;
     cfg_variation_type_ := cfg_variation_type_ m;
     cfg_has_variation_type_ := cfg_has_variation_type_ m;
     cfg_ability_ := cfg_ability_ m;
     cfg_race_ := cfg_race_ m;
     cfg_gender_ := cfg_gender_ m;
     cfg_side_ := cfg_side_ m;
     cfg_side_to_int_ := cfg_side_to_int_ m;
     cfg_has_weapon_ := cfg_has_weapon_ m;
     cfg_role_ := cfg_role_ m;
     cfg_ai_special_ := cfg_ai_special_ m;
     cfg_canrecruit_ := cfg_canrecruit_ m;
     cfg_recall_cost_ := cfg_recall_cost_ m;
     cfg_level_ := cfg_level_ m;
     cfg_defense_ := cfg_defense_ m;
     cfg_movement_ := cfg_movement_ m;
     wmlcfgs_ := wmlcfgs_ m;
     vision_filters_viewers_lists_ := vision_filters_viewers_lists_ m;
     vision_filters_visible_attr_ := vision_filters_visible_attr_ m;
     filter_adj_filters_ := filter_adj_filters_ m;
     filter_adj_is_enemy_ := filter_adj_is_enemy_ m;
     filter_adj_dirs_ := filter_adj_dirs_ m;
     filter_adj_counts_ := filter_adj_counts_ m;
     cfg_find_in_ := cfg_find_in_ m;
     cfg_formula_ := cfg_formula_ m;
     cfg_lua_function_ := cfg_lua_function_ m |}.

(** The compiled filter without its vision entries. *)
Definition without_vision (F : Type) (m : basic_members F) : basic_members F :=
  {| use_flat_tod_ := use_flat_tod_ m;
     cond_children_ := cond_children_ m;
     cond_child_types_ := cond_child_types_ m;
     cfg_name_ := cfg_name_ m;
     cfg_id_ := cfg_id_ m;
     cfg_speaker_ := cfg_speaker_ m;
     cfg_filter_loc_ := cfg_filter_loc_ m;
     cfg_filter_side_ := cfg_filter_side_ m;
     cfg_x_ := cfg_x_ m;
     cfg_y_ := cfg_y_ m;
     cfg_type_ := cfg_type_ m;
     cfg_variation_type_ := cfg_variation_type_ m;
     cfg_has_variation_type_ := cfg_has_variation_type_ m;
     cfg_ability_ := cfg_ability_ m;
     cfg_race_ := cfg_race_ m;
     cfg_gender_ := cfg_gender_ m;
     cfg_side_ := cfg_side_ m;
     cfg_side_to_int_ := cfg_side_to_int_ m;
     cfg_has_weapon_ := cfg_has_weapon_ m;
     cfg_role_ := cfg_role_ m;
     cfg_ai_special_ := cfg_ai_special_ m;
     cfg_canrecruit_ := cfg_canrecruit_ m;
     cfg_recall_cost_ := cfg_recall_cost_ m;
     cfg_level_ := cfg_level_ m;
     cfg_defense_ := cfg_defense_ m;
     cfg_movement_ := cfg_movement_ m;
     wmlcfgs_ := wmlcfgs_ m;
     vision_filters_viewers_lists_ := [];
     vision_filters_visible_attr_ := [];
     filter_adj_filters_ := filter_adj_filters_ m;
     filter_adj_is_enemy_ := filter_adj_is_enemy_ m;
     filter_adj_dirs_ := filter_adj_dirs_ m;
     filter_adj_counts_ := filter_adj_counts_ m;
     cfg_find_in_ := cfg_find_in_ m;
     cfg_formula_ := cfg_formula_ m;
     cfg_lua_function_ := cfg_lua_function_ m |}.

(** The compiled filter without its adjacency entries. *)
Definition without_adjacent (F : Type) (m : basic_members F) : basic_members F :=
  {| use_flat_tod_ := use_flat_tod_ m;
     cond_children_ := cond_children_ m;
     cond_child_types_ := cond_child_types_ m;
     cfg_name_ := cfg_name_ m;
     cfg_id_ := cfg_id_ m;
     cfg_speaker_ := cfg_speaker_ m;
     cfg_filter_loc_ := cfg_filter_loc_ m;
     cfg_filter_side_ := cfg_filter_side_ m;
     cfg_x_ := cfg_x_ m;
     cfg_y_ := cfg_y_ m;
     cfg_type_ := cfg_type_ m;
     cfg_variation_type_ := cfg_variation_type_ m;
     cfg_has_variation_type_ := cfg_has_variation_type_ m;
     cfg_ability_ := cfg_ability_ m;
     cfg_race_ := cfg_race_ m;
     cfg_gender_ := cfg_gender_ m;
     cfg_side_ := cfg_side_ m;
     cfg_side_to_int_ := cfg_side_to_int_ m;
     cfg_has_weapon_ := cfg_has_weapon_ m;
     cfg_role_ := cfg_role_ m;
     cfg_ai_special_ := cfg_ai_special_ m;
     cfg_canrecruit_ := cfg_canrecruit_ m;
     cfg_recall_cost_ := cfg_recall_cost_ m;
     cfg_level_ := cfg_level_ m;
     cfg_defense_ := cfg_defense_ m;
     cfg_movement_ := cfg_movement_ m;
     wmlcfgs_ := wmlcfgs_ m;
     vision_filters_viewers_lists_ := vision_filters_viewers_lists_ m;
     vision_filters_visible_attr_ := vision_filters_visible_attr_ m;
     filter_adj_filters_ := [];
     filter_adj_is_enemy_ := [];
     filter_adj_dirs_ := [];
     filter_adj_counts_ := [];
     cfg_find_in_ := cfg_find_in_ m;
     cfg_formula_ := cfg_formula_ m;
     cfg_lua_function_ := cfg_lua_function_ m |}.

(** The directions of a direction list taken as a set: every direction
    once. *)
Definition direction_eqb (a b : DIRECTION) : bool :=
  match a, b with
  | NORTH, NORTH | NORTH_EAST, NORTH_EAST | SOUTH_EAST, SOUTH_EAST
  | SOUTH, SOUTH | SOUTH_WEST, SOUTH_WEST | NORTH_WEST, NORTH_WEST => true
  | _, _ => false
  end.

Fixpoint direction_set (dirs : list DIRECTION) : list DIRECTION :=
  match dirs with
  | [] => []
  | d :: dirs' =>
      if existsb (direction_eqb d) (direction_set dirs')
      then direction_set dirs'
      else d :: direction_set dirs'
  end.

(** The neighbour locations, over the direction set, that count for an
    adjacency entry. *)
Definition qualifying_locations (lib : library) (fc : filter_context)
    (u : unit) (loc : map_location) (nested : unit -> eval bool)
    (is_enemy_req : option bool) (dirs : list DIRECTION) : Z :=
  Z.of_nat (List.length (filter (qualifies lib fc u loc nested is_enemy_req)
                                (direction_set dirs))).

(** An adjacency entry passes. *)
Definition entry_passes (lib : library) (fc : filter_context) (u : unit)
    (loc : map_location)
    (entry : (unit -> eval bool) * option bool * list DIRECTION
             * list (Z * Z)) : bool :=
  let '(nested, e, dirs, counts) := entry in
  in_ranges (qualifying_neighbours lib fc u loc nested e dirs) counts.

(** The compiled filter without its [formula] and [lua_function]. *)
Definition without_scripts (F : Type) (m : basic_members F) : basic_members F :=
  {| use_flat_tod_ := use_flat_tod_ m;
     cond_children_ := cond_children_ m;
     cond_child_types_ := cond_child_types_ m;
     cfg_name_ := cfg_name_ m;
     cfg_id_ := cfg_id_ m;
     cfg_speaker_ := cfg_speaker_ m;
     cfg_filter_loc_ := cfg_filter_loc_ m;
     cfg_filter_side_ := cfg_filter_side_ m;
     cfg_x_ := cfg_x_ m;
     cfg_y_ := cfg_y_ m;
     cfg_type_ := cfg_type_ m;
     cfg_variation_type_ := cfg_variation_type_ m;
     cfg_has_variation_type_ := cfg_has_variation_type_ m;
     cfg_ability_ := cfg_ability_ m;
     cfg_race_ := cfg_race_ m;
     cfg_gender_ := cfg_gender_ m;
     cfg_side_ := cfg_side_ m;
     cfg_side_to_int_ := cfg_side_to_int_ m;
     cfg_has_weapon_ := cfg_has_weapon_ m;
     cfg_role_ := cfg_role_ m;
     cfg_ai_special_ := cfg_ai_special_ m;
     cfg_canrecruit_ := cfg_canrecruit_ m;
     cfg_recall_cost_ := cfg_recall_cost_ m;
     cfg_level_ := cfg_level_ m;
     cfg_defense_ := cfg_defense_ m;
     cfg_movement_ := cfg_movement_ m;
     wmlcfgs_ := wmlcfgs_ m;
     vision_filters_viewers_lists_ := vision_filters_viewers_lists_ m;
     vision_filters_visible_attr_ := vision_filters_visible_attr_ m;
     filter_adj_filters_ := filter_adj_filters_ m;
     filter_adj_is_enemy_ := filter_adj_is_enemy_ m;
     filter_adj_dirs_ := filter_adj_dirs_ m;
     filter_adj_counts_ := filter_adj_counts_ m;
     cfg_find_in_ := cfg_find_in_ m;
     cfg_formula_ := None;
     cfg_lua_function_ := None |}.

(** An event of the filter queried itself that runs a formula or a
    scripting function. *)
Definition runs_script (e : event) : bool :=
  match e with
  | ([], runs_formula _) | ([], runs_lua _) => true
  | _ => false
  end.

(** An event, of any filter, that runs a scripting function. *)
Definition runs_lua_anywhere (e : event) : bool :=
  match snd e with
  | runs_lua _ => true
  | _ => false
  end.

(** The units a search for the first match looks at: those up to and with
    the first one that matches. *)
Fixpoint through_first (A : Type) (p : A -> bool) (l : list A) : list A :=
  match l with
  | [] => []
  | a :: l' => a :: (if p a then [] else through_first p l')
  end.

(** What the scripting check comes to: no constraint without a kernel or
    without a [lua_function]. *)
Definition lua_passes (fc : filter_context) (l : attribute_value) (u : unit)
  : bool :=
  match get_lua_kernel fc with
  | Some lk => blank l || run_filter lk (str l) u
  | None => true
  end.

(** Induction over a compiled filter and the filters nested in it. *)
Section FilterInduction.

Variable P : unit_filter_abstract_impl -> Prop.
Hypothesis P_null : P null_unit_filter_impl.
Hypothesis P_basic :
  forall m, Forall P (cond_children_ m) -> Forall P (filter_adj_filters_ m) ->
            P (basic_unit_filter_impl m).

Fixpoint unit_filter_nested_ind (f : unit_filter_abstract_impl) : P f :=
  match f with
  | null_unit_filter_impl => P_null
  | basic_unit_filter_impl m =>
      let nested :=
        fix nested (fs : list unit_filter_abstract_impl) : Forall P fs :=
          match fs with
          | [] => Forall_nil _
          | g :: fs' => Forall_cons g (unit_filter_nested_ind g) (nested fs')
          end in
      P_basic m (nested (cond_children_ m)) (nested (filter_adj_filters_ m))
  end.

End FilterInduction.

(** ** The label actions of [src/editor/action/action_label.cpp] *)

Module editor.

(** The part of [terrain_label] the actions read. *)
Record terrain_label (Color : Type) := {
  text : string;
  team_name : string;
  color : Color;
  visible_in_fog : bool;
  visible_in_shroud : bool;
  immutable : bool
}.

(** [map_labels] (map_label.hpp), the label store [mc.get_labels()] of a
    [map_context], is declared outside action_label.cpp: its two operations
    are taken as given, with the default arguments of [set_label] that the
    call [set_label(loc_, "")] leaves out. *)
Record map_labels_ops (Color Labels : Type) := {
  get_label : Labels -> map_location -> option (terrain_label Color);
  set_label : Labels -> map_location -> string -> string -> Color ->
              bool -> bool -> bool -> Labels;
  default_team_name : string;
  default_color : Color;
  default_visible_in_fog : bool;
  default_visible_in_shroud : bool;
  default_immutable : bool
}.

(** The two action classes. *)
Inductive editor_action (Color : Type) :=
| editor_action_label (loc_ : map_location) (text_ team_name_ : string)
    (color_ : Color) (visible_fog_ visible_shroud_ immutable_ : bool)
| editor_action_label_delete (loc_ : map_location).

Arguments editor_action_label_delete {Color} loc_.

Section Actions.

Variables Color Labels : Type.
Variable ops : map_labels_ops Color Labels.

(** [perform_without_undo] of both classes; [mc] is the label store of the
    map context. *)
Definition perform_without_undo (a : editor_action Color) (mc : Labels)
  : Labels :=
  match a with
  | editor_action_label loc_ text_ team_name_ color_ visible_fog_
                        visible_shroud_ immutable_ =>
      set_label ops mc loc_ text_ team_name_ color_ visible_fog_
                visible_shroud_ immutable_
  | editor_action_label_delete loc_ =>
      set_label ops mc loc_ "" (default_team_name ops) (default_color ops)
                (default_visible_in_fog ops) (default_visible_in_shroud ops)
                (default_immutable ops)
  end.

(** The action that sets the label at [loc_] back to [old]. *)
Definition relabel (loc_ : map_location) (old : terrain_label Color)
  : editor_action Color :=
  editor_action_label loc_ (text old) (team_name old) (color old)
                      (visible_in_fog old) (visible_in_shroud old)
                      (immutable old).

(** [perform] of both classes: the undo action ([None] is [NULL]) and the
    label store left behind. *)
Definition perform (a : editor_action Color) (mc : Labels)
  : option (editor_action Color) * Labels :=
  match a with
  | editor_action_label loc_ _ _ _ _ _ _ =>
      let old_label := get_label ops mc loc_ in
      let undo :=
        match old_label with
        | Some old => relabel loc_ old
        | None => editor_action_label_delete loc_
        end in
      (Some undo, perform_without_undo a mc)
  | editor_action_label_delete loc_ =>
      match get_label ops mc loc_ with
      | None => (None, mc)
      | Some deleted => (Some (relabel loc_ deleted), perform_without_undo a mc)
      end
  end.

(** What the actions rely on in the label store: it is a map from locations
    to labels in which setting a non-empty text stores the label given and
    setting the empty text removes the label. *)
Record keyed_by_location : Prop := {
  get_set_label :
    forall mc loc t tn c f s i,
      t <> "" ->
      get_label ops (set_label ops mc loc t tn c f s i) loc
      = Some {| text := t; team_name := tn; color := c; visible_in_fog := f;
                visible_in_shroud := s; immutable := i |};
  get_set_empty :
    forall mc loc tn c f s i,
      get_label ops (set_label ops mc loc "" tn c f s i) loc = None;
  get_set_other :
    forall mc loc loc' t tn c f s i,
      loc' <> loc ->
      get_label ops (set_label ops mc loc t tn c f s i) loc'
      = get_label ops mc loc'
}.

(** No label of the store has an empty text. *)
Definition labels_have_text (mc : Labels) : Prop :=
  forall loc l, get_label ops mc loc = Some l -> text l <> "".

End Actions.

(** A label store for the examples: a function from locations. *)
Definition sample_ops
  : map_labels_ops Z (map_location -> option (terrain_label Z)) :=
  {| get_label := fun mc loc => mc loc;
     set_label := fun mc loc t tn c f s i loc' =>
       if loc_eqb loc' loc
       then if String.eqb t "" then None
            else Some {| text := t; team_name := tn; color := c;
                         visible_in_fog := f; visible_in_shroud := s;
                         immutable := i |}
       else mc loc';
     default_team_name := "";
     default_color := 0;
     default_visible_in_fog := true;
     default_visible_in_shroud := false;
     default_immutable := false |}.

Definition no_labels : map_location -> option (terrain_label Z) :=
  fun _ => None.

End editor.

(** * Theorems *)

(** ** The evaluation monad *)

Lemma value_ret A (a : A) : value (ret a) = a.
Proof. reflexivity. Qed.

Lemma trace_ret A (a : A) : trace (ret a) = [].
Proof. reflexivity. Qed.

Lemma value_bind A B (m : eval A) (k : A -> eval B) :
  value (bind m k) = value (k (value m)).
Proof.
  destruct m as [a t1]; unfold bind, value; simpl.
  destruct (k a); reflexivity.
Qed.

Lemma trace_bind A B (m : eval A) (k : A -> eval B) :
  trace (bind m k) = (trace m ++ trace (k (value m)))%list.
Proof.
  destruct m as [a t1]; unfold bind, value, trace; simpl.
  destruct (k a); reflexivity.
Qed.

Lemma value_call_nested A c (m : eval A) : value (call_nested c m) = value m.
Proof. reflexivity. Qed.

Lemma evaluations_app c t1 t2 :
  evaluations c (t1 ++ t2) = (evaluations c t1 + evaluations c t2)%nat.
Proof.
  unfold evaluations. rewrite filter_app, length_app. reflexivity.
Qed.

Lemma evaluations_under c c' t : evaluations c (map (under c') t) = 0%nat.
Proof.
  unfold evaluations. induction t as [|[p a] t IH]; simpl; auto.
Qed.

Lemma call_eqb_refl c : call_eqb c c = true.
Proof. destruct c; simpl; apply Nat.eqb_refl. Qed.

Lemma evaluations_call_nested A c c' (m : eval A) :
  evaluations c (trace (call_nested c' m))
  = if call_eqb c c' then 1%nat else 0%nat.
Proof.
  unfold call_nested, trace; simpl.
  change (([], calls_matches c') :: map (under c') (snd m))
    with ([([], calls_matches c')] ++ map (under c') (snd m))%list.
  rewrite evaluations_app, evaluations_under.
  unfold evaluations; simpl. destruct (call_eqb c c'); reflexivity.
Qed.

(** ** The combinator fold of [matches] *)

Section MatchesFacts.

Variable lib : library.
Variable fc : filter_context.

Lemma matches_null u loc :
  matches lib fc null_unit_filter_impl u loc = ret true.
Proof. reflexivity. Qed.

Lemma matches_basic m u loc :
  matches lib fc (basic_unit_filter_impl m) u loc
  = bind (local_predicate lib fc m u loc)
         (fun matches0 =>
            fold_conditions
              (map (fun c => matches lib fc c u loc) (cond_children_ m))
              (cond_child_types_ m) 0 matches0).
Proof.
  cbn [matches]. unfold local_predicate.
  destruct (valid lib loc); reflexivity.
Qed.

Lemma value_fold_conditions children types i acc :
  value (fold_conditions children types i acc)
  = fold_left combinator_step (combine types (map value children)) acc.
Proof.
  revert types i acc.
  induction children as [|child children IH]; intros [|type types] i acc;
    try reflexivity.
  cbn [fold_conditions map combine fold_left].
  rewrite value_bind, IH. f_equal.
  unfold combinator_step; cbn [fst snd].
  destruct type, acc; reflexivity.
Qed.

Lemma value_matches_basic m u loc :
  value (matches lib fc (basic_unit_filter_impl m) u loc)
  = fold_left combinator_step (combinator_entries lib fc m u loc)
      (value (local_predicate lib fc m u loc)).
Proof.
  rewrite matches_basic, value_bind, value_fold_conditions.
  unfold combinator_entries. rewrite map_map. reflexivity.
Qed.

End MatchesFacts.

(** C1.  The result of [matches] on a basic filter is the left fold, in
    description order, of the result of the local predicate through the
    combinator entries: AND gives [acc && child], OR gives [acc || child],
    NOT gives [acc && negb child].  In particular, with the local predicate
    false and the children [AND f1; OR f2], f1 false and f2 true, the filter
    matches. *)
Theorem matches_is_left_fold :
  forall lib fc (m : basic_members unit_filter_abstract_impl) u loc,
    value (matches lib fc (basic_unit_filter_impl m) u loc)
    = fold_left combinator_step (combinator_entries lib fc m u loc)
        (value (local_predicate lib fc m u loc))
    /\ (forall f1 f2,
          cond_children_ m = [f1; f2] ->
          cond_child_types_ m = [conditional.AND; conditional.OR] ->
          value (local_predicate lib fc m u loc) = false ->
          value (matches lib fc f1 u loc) = false ->
          value (matches lib fc f2 u loc) = true ->
          value (matches lib fc (basic_unit_filter_impl m) u loc) = true).
Proof.
  intros lib fc m u loc. split.
  - apply value_matches_basic.
  - intros f1 f2 Hc Ht Hl H1 H2.
    rewrite value_matches_basic. unfold combinator_entries.
    rewrite Hc, Ht, Hl. cbn [map combine fold_left].
    rewrite H1, H2. reflexivity.
Qed.

Lemma matches_is_left_fold_witness :
  exists m,
    construct Sample.lib Sample.fc Sample.and_then_or false
    = ok (basic_unit_filter_impl m)
    /\ value (matches Sample.lib Sample.fc (basic_unit_filter_impl m)
                Sample.konrad (get_location Sample.konrad)) = true.
Proof.
  eexists. split.
  - reflexivity.
  - eapply (proj2 (matches_is_left_fold Sample.lib Sample.fc _
                     Sample.konrad (get_location Sample.konrad)));
      reflexivity.
Defined.

(** ** Which calls an evaluation makes *)

Section TraceFacts.

Variable lib : library.
Variable fc : filter_context.

Lemma evaluations_nil c : evaluations c [] = 0%nat.
Proof. reflexivity. Qed.

Lemma evaluations_bind A B c (m : eval A) (k : A -> eval B) :
  evaluations c (trace (bind m k))
  = (evaluations c (trace m) + evaluations c (trace (k (value m))))%nat.
Proof. rewrite trace_bind. apply evaluations_app. Qed.

(** The local predicate calls adjacency filters only. *)
Lemma adjacent_counts_quiet k u loc i nested e j n :
  evaluations (cond_child k)
    (trace (adjacent_counts lib fc u loc i nested e j n)) = 0%nat.
Proof.
  unfold adjacent_counts.
  destruct (units_find fc (get_adjacent_tiles lib loc j)); try reflexivity.
  rewrite evaluations_bind, evaluations_call_nested. cbn [call_eqb plus].
  destruct (negb _); try reflexivity.
  destruct e as [e|]; try reflexivity.
  destruct (Bool.eqb _ _); reflexivity.
Qed.

Lemma count_adjacent_quiet k u loc i nested e dirs n :
  evaluations (cond_child k)
    (trace (count_adjacent lib fc u loc i nested e dirs n)) = 0%nat.
Proof.
  revert n. induction dirs as [|j dirs IH]; intro n; cbn [count_adjacent].
  - reflexivity.
  - rewrite evaluations_bind, adjacent_counts_quiet, IH. reflexivity.
Qed.

Lemma adjacent_pass_quiet k u loc i filters es ds cs :
  evaluations (cond_child k)
    (trace (adjacent_pass lib fc u loc i filters es ds cs)) = 0%nat.
Proof.
  revert i es ds cs.
  induction filters as [|nested filters IH];
    intros i [|e es] [|d ds] [|c cs]; try reflexivity.
  cbn [adjacent_pass].
  rewrite evaluations_bind, count_adjacent_quiet.
  destruct (negb _); [reflexivity | apply IH].
Qed.

Lemma formula_and_lua_quiet k f l u loc :
  evaluations (cond_child k) (trace (formula_and_lua lib fc f l u loc))
  = 0%nat.
Proof.
  unfold formula_and_lua.
  destruct (negb (blank f)), (negb (blank l)), (get_lua_kernel fc);
    cbn; destruct (formula_matches_filter lib (str f) loc u); reflexivity.
Qed.

Ltac next_check :=
  match goal with
  | |- context [if ?c then ret false else _] =>
      destruct c; [reflexivity|]
  end.

Lemma internal_matches_filter_quiet k (m : basic_members unit_filter)
    nested u loc :
  evaluations (cond_child k)
    (trace (internal_matches_filter lib fc m nested u loc)) = 0%nat.
Proof.
  unfold internal_matches_filter.
  repeat next_check.
  rewrite evaluations_bind, adjacent_pass_quiet. cbn [plus].
  repeat next_check.
  apply formula_and_lua_quiet.
Qed.

Lemma fold_conditions_before children types i0 acc j :
  (j < i0)%nat ->
  evaluations (cond_child j) (trace (fold_conditions children types i0 acc))
  = 0%nat.
Proof.
  revert types i0 acc.
  induction children as [|child children IH]; intros [|type types] i0 acc Hj;
    try reflexivity.
  cbn [fold_conditions]. rewrite evaluations_bind.
  rewrite IH by lia. rewrite Nat.add_0_r.
  assert (Hne : call_eqb (cond_child j) (cond_child i0) = false).
  { cbn. apply Nat.eqb_neq. lia. }
  destruct type, acc; try reflexivity;
    try (rewrite evaluations_bind);
    rewrite evaluations_call_nested, Hne; reflexivity.
Qed.

Lemma fold_conditions_evaluations children types i0 acc i type child :
  nth_error types i = Some type ->
  nth_error children i = Some child ->
  evaluations (cond_child (i0 + i))
    (trace (fold_conditions children types i0 acc))
  = if needs_child type
         (fold_left combinator_step
            (firstn i (combine types (map value children))) acc)
    then 1%nat else 0%nat.
Proof.
  revert types i0 acc i.
  induction children as [|c children IH]; intros [|t types] i0 acc [|i] Ht Hc;
    try discriminate.
  - cbn in Ht, Hc. injection Ht as ->. injection Hc as ->.
    replace (i0 + 0)%nat with i0 by lia.
    cbn [fold_conditions firstn fold_left]. rewrite evaluations_bind.
    rewrite fold_conditions_before by lia. rewrite Nat.add_0_r.
    destruct type, acc; cbn [needs_child negb]; try reflexivity;
      try (rewrite evaluations_bind);
      rewrite evaluations_call_nested, call_eqb_refl; reflexivity.
  - cbn in Ht, Hc.
    cbn [fold_conditions map combine firstn fold_left].
    rewrite evaluations_bind.
    replace (i0 + S i)%nat with (S i0 + i)%nat by lia.
    rewrite (IH _ _ _ _ Ht Hc).
    assert (Hne : call_eqb (cond_child (S i0 + i)) (cond_child i0) = false).
    { cbn [call_eqb]. apply Nat.eqb_neq. lia. }
    unfold combinator_step at 2; cbn [fst snd].
    destruct t, acc; cbn [andb orb]; rewrite ?value_bind;
      try (rewrite evaluations_bind);
      rewrite ?evaluations_call_nested, ?Hne; reflexivity.
Qed.

End TraceFacts.

(** C2, as the code has it.  [matches] evaluates a combinator child at most
    once per query, and only when the operator needs its result: an AND or a
    NOT child exactly when the accumulator is true on reaching it, an OR
    child exactly when the accumulator is false.  The C++ operators [&&] and
    [||] skip the call otherwise. *)
Theorem combinator_child_evaluated_when_needed :
  forall lib fc (m : basic_members unit_filter_abstract_impl) u loc
         i type child,
    nth_error (cond_child_types_ m) i = Some type ->
    nth_error (cond_children_ m) i = Some child ->
    evaluations (cond_child i)
      (trace (matches lib fc (basic_unit_filter_impl m) u loc))
    = if needs_child type (accumulator_at lib fc m u loc i)
      then 1%nat else 0%nat.
Proof.
  intros lib fc m u loc i type child Ht Hc.
  rewrite matches_basic, evaluations_bind.
  unfold local_predicate at 1. rewrite internal_matches_filter_quiet.
  cbn [plus].
  rewrite (fold_conditions_evaluations _ _ 0 _ i Ht
             (map_nth_error (fun c => matches lib fc c u loc) _ _ Hc)).
  unfold accumulator_at, combinator_entries. rewrite map_map. reflexivity.
Qed.

Lemma combinator_child_evaluated_when_needed_witness :
  exists m,
    construct Sample.lib Sample.fc Sample.and_then_or false
    = ok (basic_unit_filter_impl m)
    /\ evaluations (cond_child 1)
         (trace (matches Sample.lib Sample.fc (basic_unit_filter_impl m)
                   Sample.konrad (get_location Sample.konrad))) = 1%nat.
Proof.
  eexists. split.
  - reflexivity.
  - erewrite combinator_child_evaluated_when_needed by reflexivity.
    reflexivity.
Defined.

(** C2 as stated fails: the filter [name=Nobody] with one [[and]] child
    does not evaluate that child for a unit of another name. *)
Lemma and_child_skipped_after_failure :
  exists m child,
    construct Sample.lib Sample.fc Sample.and_after_failure false
    = ok (basic_unit_filter_impl m)
    /\ nth_error (cond_children_ m) 0 = Some child
    /\ evaluations (cond_child 0)
         (trace (matches Sample.lib Sample.fc (basic_unit_filter_impl m)
                   Sample.konrad (get_location Sample.konrad))) <> 1%nat.
Proof.
  eexists. eexists. split; [reflexivity|]. split; [reflexivity|].
  vm_compute. discriminate.
Qed.

(** ** The null filter *)

Lemma fold_left_push_back A (l acc : list A) :
  fold_left (fun ret_ u => push_back ret_ u) l acc = (acc ++ l)%list.
Proof.
  revert acc. induction l as [|a l IH]; intro acc; cbn [fold_left].
  - symmetry. apply app_nil_r.
  - rewrite IH. unfold push_back. rewrite <- app_assoc. reflexivity.
Qed.

(** C3.  The filter built from a null description matches every entity at
    every location, and its [all_matches_on_map] returns every unit of the
    world. *)
Theorem null_filter_matches_all :
  forall lib fc vcfg flat_tod,
    null vcfg = true ->
    exists f,
      construct lib fc vcfg flat_tod = ok f
      /\ (forall u loc, value (matches lib fc f u loc) = true)
      /\ value (all_matches_on_map lib fc f) = units fc.
Proof.
  intros lib fc [|attrs cs] flat_tod Hnull; [|discriminate].
  exists null_unit_filter_impl. split; [reflexivity|]. split.
  - reflexivity.
  - cbn [all_matches_on_map value ret fst]. apply fold_left_push_back.
Qed.

Lemma null_filter_matches_all_witness :
  exists f,
    construct Sample.lib Sample.fc vnull false = ok f
    /\ (forall u loc, value (matches Sample.lib Sample.fc f u loc) = true)
    /\ value (all_matches_on_map Sample.lib Sample.fc f)
       = [Sample.konrad; Sample.delfador; Sample.raider].
Proof.
  exact (null_filter_matches_all Sample.lib Sample.fc vnull false eq_refl).
Defined.

(** ** Construction *)

Section ConstructFacts.

Variable lib : library.
Variable fc : filter_context.
Variable flat_tod : bool.

Lemma count_blocks_cons key k c cs :
  count_blocks key ((k, c) :: cs)
  = ((if String.eqb k key then 1 else 0) + count_blocks key cs)%nat.
Proof.
  unfold count_blocks. cbn [filter fst].
  destruct (String.eqb k key); reflexivity.
Qed.

Ltac tag_cases name :=
  unfold conditional.string_to_TYPE;
  destruct (String.eqb_spec name "and") as [->|?];
  [|destruct (String.eqb_spec name "or") as [->|?];
    [|destruct (String.eqb_spec name "not") as [->|?];
      [|destruct (String.eqb_spec name "filter_vision") as [->|?];
        [|destruct (String.eqb_spec name "filter_adjacent") as [->|?];
          [|destruct (String.eqb_spec name "filter_location") as [->|?];
            [|destruct (String.eqb_spec name "filter_side") as [->|?]]]]]]].

Lemma constructor_loop_fails cs :
  Forall (fun kc => is_fail (construct lib fc (snd kc) flat_tod)
                    = some_node_repeats (snd kc)) cs ->
  forall k,
    is_fail (constructor_loop lib fc
               (fun child => construct lib fc child flat_tod) flat_tod cs k)
    = loop_must_fail cs k.
Proof.
  induction 1 as [|[name child] cs Hchild _ IH]; intro k.
  - unfold loop_must_fail, count_blocks. cbn.
    destruct (k_filter_loc k), (k_filter_side k); reflexivity.
  - cbn [snd] in Hchild. unfold loop_must_fail.
    rewrite !count_blocks_cons. cbn [constructor_loop existsb].
    unfold is_filter_node_tag at 1.
    tag_cases name; cbn [String.eqb Ascii.eqb Bool.eqb andb orb];
      try (destruct (construct lib fc child flat_tod) as [nested|msg];
           cbn [is_fail] in Hchild; rewrite <- Hchild;
           [rewrite IH; unfold loop_must_fail; reflexivity
           |cbn [is_fail]; rewrite !orb_true_r; reflexivity]).
    + rewrite IH. reflexivity.
    + unfold add_filter_location.
      destruct (k_filter_loc k) as [tf|] eqn:Hloc; cbn [is_fail taken].
      * replace (Nat.leb 2 (1 + count_blocks "filter_location" cs + 1))
          with true by (symmetry; apply Nat.leb_le; lia).
        reflexivity.
      * rewrite IH. unfold loop_must_fail.
        cbn [k_filter_loc k_filter_side taken].
        do 3 f_equal. lia.
    + unfold add_filter_side.
      destruct (k_filter_side k) as [sf|] eqn:Hside; cbn [is_fail taken].
      * replace (Nat.leb 2 (1 + count_blocks "filter_side" cs + 1))
          with true by (symmetry; apply Nat.leb_le; lia).
        rewrite orb_true_r. reflexivity.
      * rewrite IH. unfold loop_must_fail.
        cbn [k_filter_loc k_filter_side taken].
        f_equal. do 2 f_equal. lia.
    + rewrite IH. unfold loop_must_fail.
      destruct (String.eqb_spec name "filter_location"); [contradiction|].
      destruct (String.eqb_spec name "filter_side"); [contradiction|].
      reflexivity.
Qed.

End ConstructFacts.

Lemma construct_fails lib fc flat_tod vcfg :
  is_fail (construct lib fc vcfg flat_tod) = some_node_repeats vcfg.
Proof.
  induction vcfg as [|attrs cs IH] using vconfig_children_ind.
  - reflexivity.
  - cbn [construct some_node_repeats].
    pose proof (constructor_loop_fails lib fc flat_tod IH (collected_init _))
      as Hloop.
    destruct (constructor_loop _ _ _ _ cs _) as [k|msg]; cbn [is_fail] in *;
      rewrite Hloop; unfold loop_must_fail, repeats_single_use_block;
      cbn [collected_init k_filter_loc k_filter_side taken];
      rewrite !Nat.add_0_r; reflexivity.
Qed.

Lemma constructor_loop_message lib fc flat_tod cs :
  Forall (fun kc => forall msg,
            construct lib fc (snd kc) flat_tod = FAIL msg ->
            msg = multiple_filter_location \/ msg = multiple_filter_side) cs ->
  forall k msg,
    constructor_loop lib fc (fun child => construct lib fc child flat_tod)
                     flat_tod cs k = FAIL msg ->
    msg = multiple_filter_location \/ msg = multiple_filter_side.
Proof.
  induction 1 as [|[name child] cs Hchild _ IH]; intros k msg; [discriminate|].
  cbn [snd] in Hchild. cbn [constructor_loop].
  destruct (conditional.string_to_TYPE name).
  - destruct (construct lib fc child flat_tod) eqn:E; [apply IH|].
    intros [= <-]. apply Hchild. reflexivity.
  - destruct (String.eqb name "filter_vision"); [apply IH|].
    destruct (String.eqb name "filter_adjacent").
    { destruct (construct lib fc child flat_tod) eqn:E; [apply IH|].
      intros [= <-]. apply Hchild. reflexivity. }
    destruct (String.eqb name "filter_location").
    { unfold add_filter_location. destruct (k_filter_loc k); [|apply IH].
      intros [= <-]. left. reflexivity. }
    destruct (String.eqb name "filter_side"); [|apply IH].
    unfold add_filter_side. destruct (k_filter_side k); [|apply IH].
    intros [= <-]. right. reflexivity.
Qed.

Lemma construct_message lib fc flat_tod vcfg msg :
  construct lib fc vcfg flat_tod = FAIL msg ->
  msg = multiple_filter_location \/ msg = multiple_filter_side.
Proof.
  revert msg.
  induction vcfg as [|attrs cs IH] using vconfig_children_ind; intro msg.
  - discriminate.
  - cbn [construct].
    destruct (constructor_loop _ _ _ _ cs _) as [k|msg'] eqn:E; [discriminate|].
    intros [= <-]. eapply constructor_loop_message; eauto.
Qed.

(** C4.  Constructing a filter fails with the fatal error exactly when some
    filter node of the description has two or more [filter_location]
    children or two or more [filter_side] children; the error is the one
    raised for the repeated block.  So a node with a repeated block always
    fails, and a description with at most one of each in every filter node
    never does. *)
Theorem construct_fails_on_repeated_block :
  forall lib fc flat_tod vcfg,
    is_fail (construct lib fc vcfg flat_tod) = some_node_repeats vcfg
    /\ (forall attrs cs,
          vcfg = vnode attrs cs ->
          repeats_single_use_block cs = true ->
          exists msg,
            construct lib fc vcfg flat_tod = FAIL msg
            /\ (msg = multiple_filter_location
                \/ msg = multiple_filter_side))
    /\ (some_node_repeats vcfg = false ->
        exists f, construct lib fc vcfg flat_tod = ok f).
Proof.
  intros lib fc flat_tod vcfg.
  pose proof (construct_fails lib fc flat_tod vcfg) as Hfail.
  split; [exact Hfail|]. split.
  - intros attrs cs -> Hrep.
    cbn [some_node_repeats] in Hfail. rewrite Hrep in Hfail.
    destruct (construct lib fc (vnode attrs cs) flat_tod) as [f|msg] eqn:E;
      [discriminate|].
    exists msg. split; [reflexivity|].
    eapply construct_message; eauto.
  - intro Hnone. rewrite Hnone in Hfail.
    destruct (construct lib fc vcfg flat_tod) as [f|msg]; [|discriminate].
    exists f. reflexivity.
Qed.

Lemma construct_fails_on_repeated_block_witness :
  (exists msg,
     construct Sample.lib Sample.fc Sample.two_locations false = FAIL msg
     /\ (msg = multiple_filter_location \/ msg = multiple_filter_side))
  /\ (exists f,
        construct Sample.lib Sample.fc Sample.one_location false = ok f).
Proof.
  split.
  - exact (proj1 (proj2 (construct_fails_on_repeated_block
                           Sample.lib Sample.fc false Sample.two_locations))
                 _ _ eq_refl eq_refl).
  - exact (proj2 (proj2 (construct_fails_on_repeated_block
                           Sample.lib Sample.fc false Sample.one_location))
                 eq_refl).
Defined.

(** ** The local predicate *)

Section LocalPredicateFacts.

Variable lib : library.
Variable fc : filter_context.

Ltac passed_check :=
  match goal with
  | |- value (if ?c then ret false else _) = true -> _ =>
      destruct c eqn:?; [discriminate|]
  end.

(** What a match of the local predicate says of the checks on [x] and [y],
    vision, adjacency and [find_in]. *)
Lemma internal_matches_filter_true (m : basic_members unit_filter)
    nested u loc :
  value (internal_matches_filter lib fc m nested u loc) = true ->
  xy_fails lib fc (cfg_x_ m) (cfg_y_ m) loc = false
  /\ forallb (fun vf => vision_found fc u loc (fst vf) (snd vf))
             (combine (vision_filters_viewers_lists_ m)
                      (vision_filters_visible_attr_ m)) = true
  /\ value (adjacent_pass lib fc u loc 0 nested (filter_adj_is_enemy_ m)
              (filter_adj_dirs_ m) (filter_adj_counts_ m)) = true
  /\ find_in_fails fc (cfg_find_in_ m) u = false.
Proof.
  unfold internal_matches_filter.
  repeat passed_check.
  rewrite value_bind.
  repeat passed_check.
  intros _. repeat split; try assumption;
    apply negb_false_iff; assumption.
Qed.

End LocalPredicateFacts.

(** The local predicate is the check on one constraint and the predicate
    without that constraint. *)
Section LocalPredicateParts.

Variable lib : library.
Variable fc : filter_context.

Ltac same_check :=
  match goal with
  | |- value (if ?c then ret false else _)
       = _ && value (if ?c then ret false else _) =>
      destruct c; [rewrite andb_false_r; reflexivity|]
  end.

Ltac members :=
  cbn [use_flat_tod_ cond_children_ cond_child_types_ cfg_name_ cfg_id_
       cfg_speaker_ cfg_filter_loc_ cfg_filter_side_ cfg_x_ cfg_y_ cfg_type_
       cfg_variation_type_ cfg_has_variation_type_ cfg_ability_ cfg_race_
       cfg_gender_ cfg_side_ cfg_side_to_int_ cfg_has_weapon_ cfg_role_
       cfg_ai_special_ cfg_canrecruit_ cfg_recall_cost_ cfg_level_
       cfg_defense_ cfg_movement_ wmlcfgs_ vision_filters_viewers_lists_
       vision_filters_visible_attr_ filter_adj_filters_ filter_adj_is_enemy_
       filter_adj_dirs_ filter_adj_counts_ cfg_find_in_ cfg_formula_
       cfg_lua_function_ without_xy without_vision without_adjacent].

Lemma local_predicate_xy (m : basic_members unit_filter) nested u loc :
  value (internal_matches_filter lib fc m nested u loc)
  = negb (xy_fails lib fc (cfg_x_ m) (cfg_y_ m) loc)
    && value (internal_matches_filter lib fc (without_xy m) nested u loc).
Proof.
  unfold internal_matches_filter. members.
  repeat same_check.
  change (xy_fails lib fc None None loc) with false. cbv iota.
  destruct (xy_fails lib fc (cfg_x_ m) (cfg_y_ m) loc); reflexivity.
Qed.

Lemma local_predicate_vision (m : basic_members unit_filter) nested u loc :
  value (internal_matches_filter lib fc m nested u loc)
  = forallb (fun vf => vision_found fc u loc (fst vf) (snd vf))
            (combine (vision_filters_viewers_lists_ m)
                     (vision_filters_visible_attr_ m))
    && value (internal_matches_filter lib fc (without_vision m) nested u loc).
Proof.
  unfold internal_matches_filter. members.
  repeat same_check.
  cbn [combine forallb negb].
  destruct (forallb _ _); reflexivity.
Qed.

Lemma local_predicate_adjacent (m : basic_members unit_filter) nested u loc :
  value (internal_matches_filter lib fc m nested u loc)
  = value (adjacent_pass lib fc u loc 0 nested (filter_adj_is_enemy_ m)
             (filter_adj_dirs_ m) (filter_adj_counts_ m))
    && value (internal_matches_filter lib fc (without_adjacent m) [] u loc).
Proof.
  unfold internal_matches_filter. members.
  repeat same_check.
  rewrite !value_bind. cbn [adjacent_pass value ret fst].
  destruct (value (adjacent_pass lib fc u loc 0 nested
                     (filter_adj_is_enemy_ m) (filter_adj_dirs_ m)
                     (filter_adj_counts_ m)));
    reflexivity.
Qed.

End LocalPredicateParts.

(** C5, as the code has it.  With [x] or [y] present: if both are the
    literal "recall" the check passes exactly when the location is not on
    the board; otherwise, if both are empty (absent, or present and empty)
    the check fails; otherwise, also when only one of them is given, the
    check passes exactly when [matches_range] accepts the location for the
    two texts.  The local predicate holds exactly when this check passes
    and the predicate without [x] and [y] holds. *)
Theorem xy_check :
  forall lib fc cfg_x cfg_y loc,
    blank cfg_x = false \/ blank cfg_y = false ->
    (cfg_x = Some "recall" -> cfg_y = Some "recall" ->
     negb (xy_fails lib fc cfg_x cfg_y loc) = negb (on_board fc loc))
    /\ (cfg_x <> Some "recall" \/ cfg_y <> Some "recall" ->
        attr_empty cfg_x = true -> attr_empty cfg_y = true ->
        xy_fails lib fc cfg_x cfg_y loc = true)
    /\ (cfg_x <> Some "recall" \/ cfg_y <> Some "recall" ->
        attr_empty cfg_x = false \/ attr_empty cfg_y = false ->
        negb (xy_fails lib fc cfg_x cfg_y loc)
        = matches_range lib loc (str cfg_x) (str cfg_y))
    /\ (forall (m : basic_members unit_filter) nested u,
          cfg_x_ m = cfg_x -> cfg_y_ m = cfg_y ->
          xy_fails lib fc cfg_x cfg_y loc = true ->
          value (internal_matches_filter lib fc m nested u loc) = false)
    /\ (forall (m : basic_members unit_filter) nested u,
          cfg_x_ m = cfg_x -> cfg_y_ m = cfg_y ->
          value (internal_matches_filter lib fc m nested u loc)
          = negb (xy_fails lib fc cfg_x cfg_y loc)
            && value (internal_matches_filter lib fc (without_xy m) nested
                        u loc)).
Proof.
  intros lib fc cfg_x cfg_y loc Hpresent.
  assert (Hguard : negb (blank cfg_x) || negb (blank cfg_y) = true).
  { destruct Hpresent as [-> | ->]; [reflexivity | apply orb_true_r]. }
  assert (Hrecall :
    cfg_x <> Some "recall" \/ cfg_y <> Some "recall" ->
    attr_eq cfg_x "recall" && attr_eq cfg_y "recall" = false).
  { intros [Hx | Hy]; apply andb_false_iff; [left | right].
    - destruct cfg_x as [s|]; [|reflexivity]. cbn [attr_eq].
      apply String.eqb_neq. congruence.
    - destruct cfg_y as [s|]; [|reflexivity]. cbn [attr_eq].
      apply String.eqb_neq. congruence. }
  assert (Hpart : forall (m : basic_members unit_filter) nested u,
    cfg_x_ m = cfg_x -> cfg_y_ m = cfg_y ->
    value (internal_matches_filter lib fc m nested u loc)
    = negb (xy_fails lib fc cfg_x cfg_y loc)
      && value (internal_matches_filter lib fc (without_xy m) nested u loc)).
  { intros m nested u <- <-. apply local_predicate_xy. }
  split; [|split; [|split; [|split]]].
  - unfold xy_fails. rewrite Hguard. intros -> ->. reflexivity.
  - unfold xy_fails. rewrite Hguard.
    intros Hnot Hx Hy. rewrite (Hrecall Hnot), Hx, Hy. reflexivity.
  - unfold xy_fails. rewrite Hguard.
    intros Hnot Hsome. rewrite (Hrecall Hnot).
    replace (attr_empty cfg_x && attr_empty cfg_y) with false.
    + apply negb_involutive.
    + symmetry. apply andb_false_iff. exact Hsome.
  - intros m nested u Hx Hy Hfails.
    rewrite (Hpart m nested u Hx Hy), Hfails. reflexivity.
  - exact Hpart.
Qed.

Lemma xy_check_witness :
  negb (xy_fails Sample.lib Sample.fc (Some "5") None
          (get_location Sample.konrad)) = true
  /\ xy_fails Sample.lib Sample.fc (Some "") None
       (get_location Sample.konrad) = true
  /\ value (internal_matches_filter Sample.lib Sample.fc
              (initialise Sample.lib Sample.on_recall_list false
                          (collected_init unit_filter))
              [] Sample.recalled (get_location Sample.recalled)) = true.
Proof.
  pose proof (xy_check Sample.lib Sample.fc (Some "5") None
                (get_location Sample.konrad) (or_introl eq_refl))
    as [_ [_ [H5 _]]].
  pose proof (xy_check Sample.lib Sample.fc (Some "") None
                (get_location Sample.konrad) (or_introl eq_refl))
    as [_ [Hempty _]].
  pose proof (xy_check Sample.lib Sample.fc (Some "recall") (Some "recall")
                (get_location Sample.recalled) (or_introl eq_refl))
    as [_ [_ [_ [_ Hpart]]]].
  split; [|split].
  - rewrite H5; [reflexivity | left; discriminate | left; reflexivity].
  - apply Hempty; [left; discriminate | reflexivity | reflexivity].
  - rewrite Hpart; reflexivity.
Defined.

(** C5 as stated fails: a filter with [x=5] and no [y] is an incomplete
    pair, yet it matches a unit in column 5 (counted from 1). *)
Lemma incomplete_xy_pair_matches :
  exists m,
    construct Sample.lib Sample.fc Sample.x_only false
    = ok (basic_unit_filter_impl m)
    /\ blank (cfg_x_ m) = false /\ blank (cfg_y_ m) = true
    /\ xy_fails Sample.lib Sample.fc (cfg_x_ m) (cfg_y_ m)
         (get_location Sample.konrad) = false
    /\ value (matches Sample.lib Sample.fc (basic_unit_filter_impl m)
                Sample.konrad (get_location Sample.konrad)) = true.
Proof.
  eexists. split; [reflexivity|]. repeat split; reflexivity.
Qed.

(** ** Vision *)

Lemma vision_found_iff fc u loc viewers visible :
  vision_found fc u loc viewers visible = true
  <-> exists viewer, In viewer viewers /\ visible_to fc u loc viewer = visible.
Proof.
  unfold vision_found, visible_to. rewrite existsb_exists.
  split; intros [viewer [Hin H]]; exists viewer; (split; [exact Hin|]);
    unfold unit_hidden in *;
    destruct visible, (fogged (team_of fc viewer) loc || invisible u loc);
    cbn in *; congruence.
Qed.

(** C6.  A vision entry with viewer sides [viewers] and required visibility
    [visible] passes exactly when for at least one viewer the state of the
    entity (visible to that side: neither under its fog at the location nor
    hiding there) is the required one.  The local predicate holds exactly
    when every vision entry passes and the predicate without the vision
    entries holds; so an entry that does not pass makes it false. *)
Theorem vision_check_any_viewer :
  forall lib fc u loc viewers visible,
    (vision_found fc u loc viewers visible = true
     <-> exists viewer,
           In viewer viewers /\ visible_to fc u loc viewer = visible)
    /\ (forall (m : basic_members unit_filter) nested,
          In (viewers, visible)
             (combine (vision_filters_viewers_lists_ m)
                      (vision_filters_visible_attr_ m)) ->
          vision_found fc u loc viewers visible = false ->
          value (internal_matches_filter lib fc m nested u loc) = false)
    /\ (forall (m : basic_members unit_filter) nested,
          value (internal_matches_filter lib fc m nested u loc)
          = forallb (fun vf => vision_found fc u loc (fst vf) (snd vf))
                    (combine (vision_filters_viewers_lists_ m)
                             (vision_filters_visible_attr_ m))
            && value (internal_matches_filter lib fc (without_vision m) nested
                        u loc))
    /\ (forall (m : basic_members unit_filter) nested,
          vision_filters_viewers_lists_ m = [viewers] ->
          vision_filters_visible_attr_ m = [visible] ->
          value (internal_matches_filter lib fc m nested u loc)
          = vision_found fc u loc viewers visible
            && value (internal_matches_filter lib fc (without_vision m) nested
                        u loc)).
Proof.
  intros lib fc u loc viewers visible.
  split; [|split; [|split]].
  - apply vision_found_iff.
  - intros m nested Hin Hnot.
    rewrite local_predicate_vision.
    replace (forallb _ _) with false; [reflexivity|].
    symmetry. apply not_true_is_false. intro Hall.
    rewrite forallb_forall in Hall. specialize (Hall _ Hin).
    cbn [fst snd] in Hall. congruence.
  - intros m nested. apply local_predicate_vision.
  - intros m nested Hv Hb. rewrite local_predicate_vision, Hv, Hb.
    cbn [combine forallb fst snd]. rewrite andb_true_r. reflexivity.
Qed.

Lemma vision_check_any_viewer_witness :
  vision_found Sample.fc Sample.konrad (get_location Sample.konrad)
    [1; 2] false = true
  /\ (exists m,
        construct Sample.lib Sample.fc Sample.hidden_from_2 false
        = ok (basic_unit_filter_impl m)
        /\ value (internal_matches_filter Sample.lib Sample.fc m []
                    Sample.delfador (get_location Sample.delfador)) = false)
  /\ value (internal_matches_filter Sample.lib Sample.fc
              (initialise Sample.lib Sample.hidden_from_1_or_2 false
                 (add_filter_vision Sample.lib Sample.fc
                    (collected_init unit_filter)
                    (Sample.leaf [("side", "1,2"); ("visible", "no")])))
              [] Sample.konrad (get_location Sample.konrad)) = true.
Proof.
  split; [|split].
  - apply (proj1 (vision_check_any_viewer Sample.lib Sample.fc Sample.konrad
                    (get_location Sample.konrad) [1; 2] false)).
    exists 2. split; [right; left; reflexivity | reflexivity].
  - eexists. split; [reflexivity|].
    apply (proj1 (proj2 (vision_check_any_viewer Sample.lib Sample.fc
                           Sample.delfador (get_location Sample.delfador)
                           [2] false))).
    + left. reflexivity.
    + reflexivity.
  - rewrite (proj2 (proj2 (proj2 (vision_check_any_viewer Sample.lib
                                    Sample.fc Sample.konrad
                                    (get_location Sample.konrad)
                                    [1; 2] false))));
      reflexivity.
Defined.

(** ** Adjacency *)

Section AdjacencyFacts.

Variable lib : library.
Variable fc : filter_context.

Lemma value_adjacent_counts u loc i nested e j n :
  value (adjacent_counts lib fc u loc i nested e j n)
  = n + (if qualifies lib fc u loc nested e j then 1 else 0).
Proof.
  unfold adjacent_counts, qualifies.
  destruct (units_find fc (get_adjacent_tiles lib loc j)) as [nb|].
  - rewrite value_bind, value_call_nested.
    destruct (value (nested nb)); cbn [negb andb].
    + destruct e as [e|]; [destruct (Bool.eqb _ _)|]; cbn [value ret fst]; lia.
    + cbn [value ret fst]. lia.
  - cbn [value ret fst]. lia.
Qed.

Lemma value_count_adjacent u loc i nested e dirs n :
  value (count_adjacent lib fc u loc i nested e dirs n)
  = n + qualifying_neighbours lib fc u loc nested e dirs.
Proof.
  unfold qualifying_neighbours. revert n.
  induction dirs as [|j dirs IH]; intro n; cbn [count_adjacent filter].
  - cbn. lia.
  - rewrite value_bind, IH, value_adjacent_counts.
    destruct (qualifies lib fc u loc nested e j); cbn [List.length]; lia.
Qed.

(** The entries of the four adjacency vectors, side by side. *)
Lemma value_adjacent_pass u loc i filters es ds cs :
  value (adjacent_pass lib fc u loc i filters es ds cs)
  = forallb (fun entry =>
               let '(nested, e, dirs, counts) := entry in
               in_ranges (qualifying_neighbours lib fc u loc nested e dirs)
                         counts)
            (combine (combine (combine filters es) ds) cs).
Proof.
  revert i es ds cs.
  induction filters as [|nested filters IH];
    intros i [|e es] [|d ds] [|c cs]; try reflexivity.
  cbn [adjacent_pass combine forallb].
  rewrite value_bind, value_count_adjacent. cbn [Z.add].
  destruct (in_ranges _ c); cbn [negb andb]; [apply IH | reflexivity].
Qed.

End AdjacencyFacts.

Lemma direction_eqb_eq a b : direction_eqb a b = true <-> a = b.
Proof. destruct a, b; cbn; split; congruence. Qed.

Lemma direction_set_of_distinct dirs : NoDup dirs -> direction_set dirs = dirs.
Proof.
  induction 1 as [|d dirs Hd _ IH]; [reflexivity|].
  cbn [direction_set]. rewrite IH.
  replace (existsb (direction_eqb d) dirs) with false; [reflexivity|].
  symmetry. apply not_true_is_false. intro H.
  apply existsb_exists in H. destruct H as [d' [Hin Heq]].
  apply direction_eqb_eq in Heq. subst d'. contradiction.
Qed.

(** C7, as the code has it.  An adjacency entry counts, over the entries of
    its direction list (a direction given twice is counted twice), the
    neighbour hexes that hold a unit which the nested filter matches and
    whose enemy relation to the side of the tested unit is the one asked
    for, when one is asked for; for a list without repetition that is the
    number of such neighbour locations over the direction set.  The
    adjacency check passes exactly when the count of every entry is in the
    range set of that entry, and the local predicate holds exactly when the
    adjacency check passes and the predicate without the adjacency entries
    holds.  The constructor takes all six directions, no enemy requirement
    and the ranges of "1-6" where the description gives none; an entry with
    the range 1-6 and no qualifying neighbour makes the local predicate
    false. *)
Theorem adjacency_check_counts_neighbours :
  forall lib fc u loc,
    (forall i nested e dirs,
        value (count_adjacent lib fc u loc i nested e dirs 0)
        = qualifying_neighbours lib fc u loc nested e dirs)
    /\ (forall i filters es ds cs,
          value (adjacent_pass lib fc u loc i filters es ds cs)
          = forallb (entry_passes lib fc u loc)
                    (combine (combine (combine filters es) ds) cs))
    /\ (forall (m : basic_members unit_filter) nested,
          value (internal_matches_filter lib fc m nested u loc)
          = value (adjacent_pass lib fc u loc 0 nested (filter_adj_is_enemy_ m)
                     (filter_adj_dirs_ m) (filter_adj_counts_ m))
            && value (internal_matches_filter lib fc (without_adjacent m) []
                        u loc))
    /\ (forall (k : collected unit_filter) f nested,
          (blank (attr f "adjacent") = true ->
           k_adj_dirs (add_filter_adjacent lib k f nested)
           = (k_adj_dirs k ++ [default_dirs])%list)
          /\ (blank (attr f "is_enemy") = true ->
              k_adj_is_enemy (add_filter_adjacent lib k f nested)
              = (k_adj_is_enemy k ++ [None])%list)
          /\ (blank (attr f "count") = true ->
              k_adj_counts (add_filter_adjacent lib k f nested)
              = (k_adj_counts k ++ [parse_ranges lib "1-6"])%list))
    /\ (parse_ranges lib "1-6" = [(1, 6)] ->
        forall (m : basic_members unit_filter) nested nf e dirs,
          In (nf, e, dirs, default_counts lib)
             (combine (combine (combine nested (filter_adj_is_enemy_ m))
                               (filter_adj_dirs_ m))
                      (filter_adj_counts_ m)) ->
          qualifying_neighbours lib fc u loc nf e dirs = 0 ->
          value (internal_matches_filter lib fc m nested u loc) = false)
    /\ (forall nested e dirs,
          NoDup dirs ->
          qualifying_neighbours lib fc u loc nested e dirs
          = qualifying_locations lib fc u loc nested e dirs).
Proof.
  intros lib fc u loc.
  assert (Hpass : forall i filters es ds cs,
    value (adjacent_pass lib fc u loc i filters es ds cs)
    = forallb (entry_passes lib fc u loc)
              (combine (combine (combine filters es) ds) cs)).
  { intros. rewrite value_adjacent_pass. reflexivity. }
  split; [|split; [|split; [|split; [|split]]]].
  - intros. rewrite value_count_adjacent. reflexivity.
  - exact Hpass.
  - intros m nested. apply local_predicate_adjacent.
  - intros k f nested. unfold add_filter_adjacent, push_back, default_counts.
    cbn [k_adj_dirs k_adj_is_enemy k_adj_counts].
    repeat split; intros ->; reflexivity.
  - intros Hparse m nested nf e dirs Hin Hzero.
    rewrite local_predicate_adjacent, Hpass.
    replace (forallb _ _) with false; [reflexivity|].
    symmetry. apply not_true_is_false. intro Hall.
    rewrite forallb_forall in Hall. specialize (Hall _ Hin).
    unfold entry_passes, default_counts in Hall.
    rewrite Hzero, Hparse in Hall. discriminate.
  - intros nested e dirs Hdistinct.
    unfold qualifying_locations, qualifying_neighbours.
    rewrite direction_set_of_distinct by exact Hdistinct. reflexivity.
Qed.

Lemma adjacency_check_counts_neighbours_witness :
  (exists m,
     construct Sample.lib Sample.fc Sample.any_neighbour false
     = ok (basic_unit_filter_impl m)
     /\ value (local_predicate Sample.lib Sample.fc m Sample.delfador
                 (get_location Sample.delfador)) = false)
  /\ qualifying_neighbours Sample.lib Sample.fc Sample.konrad
       (get_location Sample.konrad)
       (fun u' => matches Sample.lib Sample.fc null_unit_filter_impl u'
                    (get_location u'))
       (Some true) default_dirs = 1
  /\ exists m,
       construct Sample.lib Sample.fc Sample.enemy_to_the_south false
       = ok (basic_unit_filter_impl m)
       /\ filter_adj_dirs_ m = [[SOUTH]]
       /\ value (matches Sample.lib Sample.fc (basic_unit_filter_impl m)
                   Sample.konrad (get_location Sample.konrad)) = true.
Proof.
  pose proof (adjacency_check_counts_neighbours Sample.lib Sample.fc
                Sample.delfador (get_location Sample.delfador))
    as (_ & _ & _ & _ & Hzero & _).
  pose proof (adjacency_check_counts_neighbours Sample.lib Sample.fc
                Sample.konrad (get_location Sample.konrad))
    as (_ & _ & _ & _ & _ & Hset).
  split; [|split].
  - eexists. split; [reflexivity|].
    unfold local_predicate. eapply Hzero.
    + reflexivity.
    + left. reflexivity.
    + reflexivity.
  - rewrite Hset; [reflexivity|].
    repeat constructor; cbn; intuition discriminate.
  - eexists. repeat split; reflexivity.
Defined.

(** C7 as stated fails: with [adjacent=s,s] and [count=1] the direction
    set holds south alone and one neighbour location, the hex to the south,
    holds a qualifying unit, a count inside the range 1; yet the filter
    does not match, because the loop counts that neighbour once for each of
    the two entries. *)
Lemma repeated_direction_counts_twice :
  exists m g,
    construct Sample.lib Sample.fc Sample.south_twice false
    = ok (basic_unit_filter_impl m)
    /\ filter_adj_filters_ m = [g]
    /\ filter_adj_dirs_ m = [[SOUTH; SOUTH]]
    /\ filter_adj_counts_ m = [[(1, 1)]]
    /\ direction_set [SOUTH; SOUTH] = [SOUTH]
    /\ qualifying_locations Sample.lib Sample.fc Sample.konrad
         (get_location Sample.konrad)
         (fun u' => matches Sample.lib Sample.fc g u' (get_location u'))
         None [SOUTH; SOUTH] = 1
    /\ in_ranges 1 [(1, 1)] = true
    /\ value (matches Sample.lib Sample.fc (basic_unit_filter_impl m)
                Sample.konrad (get_location Sample.konrad)) = false.
Proof.
  eexists. eexists. split; [reflexivity|].
  repeat split; reflexivity.
Qed.

(** ** The lazy list *)

Section LazyStringListFacts.

Variable split : string -> list string.

Lemma make_stands_for attr : stands_for split (make attr) (parsed split attr).
Proof.
  unfold make, parsed, stands_for. destruct (blank attr); reflexivity.
Qed.

Lemma cached_make attr : cached (make attr) = blank attr.
Proof. unfold make. destruct (blank attr); reflexivity. Qed.

(** One query: the answer is that of the list the wrapper stands for, the
    wrapper left behind stands for the same list and is filled, and [split]
    ran only if the wrapper was not yet filled. *)
Lemma ask_spec q l v :
  stands_for split l v ->
  exists l',
    ask split q l = (answer_of v q, l', if cached l then 0%nat else 1%nat)
    /\ stands_for split l' v /\ cached l' = true.
Proof.
  unfold stands_for, cached, ask, empty, find, get.
  destruct l as [s [w|]]; cbn [my_list_ my_str_]; intros <-.
  - exists {| my_str_ := s; my_list_ := Some w |}.
    destruct q; repeat split; reflexivity.
  - exists {| my_str_ := s; my_list_ := Some (split s) |}.
    destruct q; repeat split; reflexivity.
Qed.

Lemma run_spec qs l v :
  stands_for split l v ->
  exists l',
    run split qs l
    = (map (answer_of v) qs, l',
       if cached l then 0%nat
       else match qs with [] => 0%nat | _ :: _ => 1%nat end)
    /\ stands_for split l' v
    /\ (cached l = true \/ qs <> [] -> cached l' = true).
Proof.
  revert l. induction qs as [|q qs IH]; intros l Hl.
  - exists l. split; [|split; [exact Hl|]].
    + cbn [run map]. destruct (cached l); reflexivity.
    + intros [H | H]; [exact H | contradiction].
  - destruct (@ask_spec q l v Hl) as [l1 [Hask [Hl1 Hc1]]].
    destruct (IH l1 Hl1) as [l2 [Hrun [Hl2 Hc2]]].
    exists l2. split; [|split; [exact Hl2|]].
    + cbn [run map]. rewrite Hask, Hrun, Hc1.
      destruct (cached l); reflexivity.
    + intros _. apply Hc2. left. exact Hc1.
Qed.

End LazyStringListFacts.

(** C8, as the code has it.  For a wrapper made from a raw attribute: the
    emptiness query reports true exactly when the parsed list is empty, that
    is when the raw value is blank or when splitting it gives no item; the
    membership query is exact membership in the parsed list; over any run of
    queries every answer is the one the parsed list gives, a function of the
    raw value alone, and [split] runs at most once, never for a blank value
    and never again once a query has been answered. *)
Theorem lazy_string_list_queries :
  forall split attr,
    (fst (fst (empty split (make attr))) = true
     <-> blank attr = true \/ split (str attr) = [])
    /\ (forall s,
          fst (fst (find split (make attr) s)) = true
          <-> In s (parsed split attr))
    /\ (forall qs,
          exists l',
            run split qs (make attr)
            = (map (answer_of (parsed split attr)) qs, l',
               if blank attr then 0%nat
               else match qs with [] => 0%nat | _ :: _ => 1%nat end)
            /\ forall qs',
                 qs <> [] ->
                 exists l'',
                   run split qs' l'
                   = (map (answer_of (parsed split attr)) qs', l'', 0%nat)).
Proof.
  intros split attr. split; [|split].
  - unfold empty, get, make.
    destruct attr as [s|]; cbn [blank str my_list_ my_str_ fst is_nil].
    + destruct (split s); cbn [is_nil]; split.
      * intros _. right. reflexivity.
      * reflexivity.
      * discriminate.
      * intros [H | H]; discriminate.
    + split; [intros _; left|]; reflexivity.
  - intro s. unfold find, get, make, parsed.
    destruct attr as [r|]; cbn [blank str my_list_ my_str_ fst].
    + rewrite existsb_exists. split.
      * intros [y [Hin Heq]]. apply String.eqb_eq in Heq. subst. exact Hin.
      * intro Hin. exists s. split; [exact Hin | apply String.eqb_refl].
    + cbn. split; [discriminate | contradiction].
  - intro qs.
    destruct (@run_spec split qs _ _ (make_stands_for split attr))
      as [l' [Hrun [Hl' Hc]]].
    rewrite cached_make in Hrun.
    exists l'. split; [exact Hrun|].
    intros qs' Hne.
    destruct (@run_spec split qs' _ _ Hl') as [l'' [Hrun' _]].
    exists l''. rewrite Hrun', Hc; [reflexivity | right; exact Hne].
Qed.

Lemma lazy_string_list_queries_witness :
  exists l',
    run Sample.split_commas [q_empty; q_find "u2"; q_find "u"]
        (make (Some "u1, u2"))
    = ([a_bool false; a_bool true; a_bool false], l', 1%nat)
    /\ exists l'',
         run Sample.split_commas [q_find "u1"; q_get] l'
         = ([a_bool true; a_list ["u1"; "u2"]], l'', 0%nat).
Proof.
  destruct (proj2 (proj2 (lazy_string_list_queries Sample.split_commas
                            (Some "u1, u2")))
              [q_empty; q_find "u2"; q_find "u"]) as [l' [H1 H2]].
  exists l'. split.
  - exact H1.
  - apply H2. discriminate.
Defined.

(** C8 as stated fails: with the split of [utils::split] (pieces left empty
    are dropped) the emptiness query reports true for the raw values ","
    and "", which are set. *)
Lemma empty_reports_true_for_set_value :
  (fst (fst (empty Sample.split_commas (make (Some ",")))) = true
   /\ blank (Some ",") = false)
  /\ (fst (fst (empty Sample.split_commas (make (Some "")))) = true
      /\ blank (Some "") = false).
Proof. repeat split; reflexivity. Qed.

(** ** The map queries *)

Section MapQueryFacts.

Variable lib : library.
Variable fc : filter_context.

Lemma value_all_matches_loop f us acc :
  value (all_matches_loop lib fc f us acc)
  = (acc ++ filter (fun u => value (matches lib fc f u (get_location u))) us)%list.
Proof.
  revert acc. induction us as [|u us IH]; intro acc;
    cbn [all_matches_loop filter].
  - cbn. symmetry. apply app_nil_r.
  - rewrite value_bind, IH.
    destruct (value (matches lib fc f u (get_location u))).
    + unfold push_back. rewrite <- app_assoc. reflexivity.
    + reflexivity.
Qed.

Lemma value_first_match_loop f us :
  value (first_match_loop lib fc f us)
  = shared_ptr
      (List.find (fun u => value (matches lib fc f u (get_location u))) us).
Proof.
  induction us as [|u us IH]; cbn [first_match_loop List.find].
  - reflexivity.
  - rewrite value_bind.
    destruct (value (matches lib fc f u (get_location u)));
      [reflexivity | exact IH].
Qed.

(** [all_matches_on_map] returns the matching units, for both
    implementations. *)
Lemma all_matches_on_map_spec f :
  value (all_matches_on_map lib fc f) = matching_units lib fc f.
Proof.
  unfold matching_units. destruct f as [|m].
  - cbn [all_matches_on_map value ret fst]. rewrite fold_left_push_back.
    cbn [app]. induction (units fc) as [|u us IH]; cbn [filter].
    + reflexivity.
    + rewrite matches_null. cbn [value ret fst]. f_equal. exact IH.
  - cbn [all_matches_on_map]. rewrite value_all_matches_loop. reflexivity.
Qed.

(** [first_match_on_map] of a basic filter returns the first matching unit
    in iteration order, or the empty pointer. *)
Lemma first_match_on_map_basic m :
  value (first_match_on_map lib fc (basic_unit_filter_impl m))
  = shared_ptr
      (List.find
         (fun u => value (matches lib fc (basic_unit_filter_impl m) u
                            (get_location u)))
         (units fc)).
Proof. cbn [first_match_on_map]. apply value_first_match_loop. Qed.

(** The null filter returns the first unit of a world that has one. *)
Lemma first_match_on_map_null u us :
  units fc = u :: us ->
  value (first_match_on_map lib fc null_unit_filter_impl)
  = shared_ptr
      (List.find
         (fun u => value (matches lib fc null_unit_filter_impl u
                            (get_location u)))
         (units fc)).
Proof. intro H. cbn [first_match_on_map]. rewrite H. reflexivity. Qed.

End MapQueryFacts.

(** C9 at its failing input.  In a world without units no entity matches
    the null filter, and [all_matches_on_map] is right to return nothing;
    [first_match_on_map] of the null filter takes [begin().get_shared_ptr()]
    with no test against [end()], so it does not return the empty pointer
    the basic filter returns there. *)
Theorem null_first_match_in_empty_world :
  matching_units Sample.lib Sample.fc_no_units null_unit_filter_impl = []
  /\ value (all_matches_on_map Sample.lib Sample.fc_no_units
              null_unit_filter_impl) = []
  /\ value (first_match_on_map Sample.lib Sample.fc_no_units
              null_unit_filter_impl) = dereferences_end
  /\ value (first_match_on_map Sample.lib Sample.fc_no_units
              (Sample.built (Sample.leaf []))) = shared_ptr None.
Proof. repeat split; reflexivity. Qed.

(** ** [find_in] without game data *)

Lemma assoc_without_other key k attrs :
  String.eqb key k = false ->
  assoc key (filter (fun kv => negb (String.eqb (fst kv) k)) attrs)
  = assoc key attrs.
Proof.
  intro Hne. induction attrs as [|[k' v] attrs IH]; [reflexivity|].
  cbn [filter fst assoc].
  destruct (String.eqb_spec k' k) as [->|Hk]; cbn [negb assoc].
  - rewrite Hne. exact IH.
  - rewrite IH. reflexivity.
Qed.

Lemma assoc_without_same k attrs :
  assoc k (filter (fun kv => negb (String.eqb (fst kv) k)) attrs) = None.
Proof.
  induction attrs as [|[k' v] attrs IH]; [reflexivity|].
  cbn [filter fst].
  destruct (String.eqb_spec k' k) as [->|Hk]; cbn [negb assoc]; [exact IH|].
  destruct (String.eqb_spec k k'); [congruence | exact IH].
Qed.

Lemma initialise_without_find_in lib (F : Type) attrs cs flat_tod
    (k : collected F) :
  initialise lib (without_attribute "find_in" (vnode attrs cs)) flat_tod k
  = without_find_in (initialise lib (vnode attrs cs) flat_tod k).
Proof.
  unfold initialise, without_find_in, get_children.
  cbn [without_attribute attr ordered_children use_flat_tod_ cond_children_
       cond_child_types_ cfg_name_ cfg_id_ cfg_speaker_ cfg_filter_loc_
       cfg_filter_side_ cfg_x_ cfg_y_ cfg_type_ cfg_variation_type_
       cfg_has_variation_type_ cfg_ability_ cfg_race_ cfg_gender_ cfg_side_
       cfg_side_to_int_ cfg_has_weapon_ cfg_role_ cfg_ai_special_
       cfg_canrecruit_ cfg_recall_cost_ cfg_level_ cfg_defense_ cfg_movement_
       wmlcfgs_ vision_filters_viewers_lists_ vision_filters_visible_attr_
       filter_adj_filters_ filter_adj_is_enemy_ filter_adj_dirs_
       filter_adj_counts_ cfg_find_in_ cfg_formula_ cfg_lua_function_].
  rewrite assoc_without_same.
  rewrite !assoc_without_other by reflexivity.
  reflexivity.
Qed.

Lemma find_in_fails_without_game_data fc a u :
  get_game_data fc = None -> find_in_fails fc a u = false.
Proof.
  intro H. unfold find_in_fails. rewrite H.
  destruct (negb (blank a)); reflexivity.
Qed.

Lemma internal_matches_filter_without_find_in lib fc
    (m : basic_members unit_filter) nested u loc :
  get_game_data fc = None ->
  internal_matches_filter lib fc (without_find_in m) nested u loc
  = internal_matches_filter lib fc m nested u loc.
Proof.
  intro H. unfold internal_matches_filter.
  rewrite !(find_in_fails_without_game_data _ _ _ H).
  reflexivity.
Qed.

Lemma matches_without_find_in lib fc (m : basic_members unit_filter) u loc :
  get_game_data fc = None ->
  matches lib fc (basic_unit_filter_impl (without_find_in m)) u loc
  = matches lib fc (basic_unit_filter_impl m) u loc.
Proof.
  intro H. rewrite !matches_basic. unfold local_predicate.
  rewrite internal_matches_filter_without_find_in by exact H.
  reflexivity.
Qed.

(** C10.  When the filter context has no game data, [find_in] puts no
    constraint on a match: the filter built from a description and the
    filter built from the same description without its [find_in] attribute
    evaluate alike, result and calls, for every unit and location, whatever
    variable is named. *)
Theorem find_in_skipped_without_game_data :
  forall lib fc attrs cs flat_tod f,
    get_game_data fc = None ->
    construct lib fc (vnode attrs cs) flat_tod = ok f ->
    exists f',
      construct lib fc (without_attribute "find_in" (vnode attrs cs)) flat_tod
      = ok f'
      /\ forall u loc, matches lib fc f u loc = matches lib fc f' u loc.
Proof.
  intros lib fc attrs cs flat_tod f Hgd Hf.
  cbn [without_attribute construct] in *.
  destruct (constructor_loop _ _ _ _ cs _) as [k|msg]; [|discriminate].
  injection Hf as <-.
  eexists. split; [reflexivity|].
  intros u loc.
  change (vnode (filter (fun kv => negb (String.eqb (fst kv) "find_in")) attrs)
                cs)
    with (without_attribute "find_in" (vnode attrs cs)).
  rewrite initialise_without_find_in.
  symmetry. apply matches_without_find_in. exact Hgd.
Qed.

Lemma find_in_skipped_without_game_data_witness :
  exists f f',
    construct Sample.lib Sample.fc Sample.found_in_store false = ok f
    /\ construct Sample.lib Sample.fc (Sample.leaf [("id", "u1")]) false
       = ok f'
    /\ (forall u loc,
          matches Sample.lib Sample.fc f u loc
          = matches Sample.lib Sample.fc f' u loc)
    /\ value (matches Sample.lib Sample.fc f Sample.konrad
                (get_location Sample.konrad)) = true.
Proof.
  destruct (find_in_skipped_without_game_data Sample.lib Sample.fc
              [("find_in", "heroes"); ("id", "u1")] [] false
              eq_refl eq_refl) as [f' [Hf' Heq]].
  eexists. exists f'. split; [reflexivity|]. split; [exact Hf'|].
  split; [exact Heq | reflexivity].
Defined.

(** * Further properties of the code *)

(** ** What the constructor builds *)

Section ConstructorShape.

Variable lib : library.
Variable fc : filter_context.
Variable flat_tod : bool.

Let build := fun child : vconfig => construct lib fc child flat_tod.

Ltac field_done :=
  unfold push_back, viewers_of, visible_of, is_enemy_of, dirs_of, counts_of,
         default_counts, keep_or, first_tagged, tagged, conditional_children,
         conditional_types, is_conditional, conditional.string_to_TYPE in *;
  cbn in *;
  repeat match goal with
         | H : String.eqb _ _ = _ |- _ => rewrite H in *; cbn in *
         end;
  rewrite ?map_app, <- ?app_assoc; cbn;
  try match goal with
      | |- context [blank ?a] => destruct (blank a); cbn
      end;
  try match goal with
      | |- context [k_filter_loc ?k] => destruct (k_filter_loc k); cbn
      end;
  try match goal with
      | |- context [k_filter_side ?k] => destruct (k_filter_side k); cbn
      end;
  congruence.

Lemma constructor_loop_collects cs :
  forall k k',
    constructor_loop lib fc build flat_tod cs k = ok k' ->
    k_cond_child_types k'
    = (k_cond_child_types k ++ conditional_types cs)%list
    /\ map ok (k_cond_children k')
       = (map ok (k_cond_children k)
          ++ map build (conditional_children cs))%list
    /\ k_viewers_lists k'
       = (k_viewers_lists k
          ++ map (viewers_of lib fc) (tagged "filter_vision" cs))%list
    /\ k_visible_attr k'
       = (k_visible_attr k
          ++ map (visible_of lib) (tagged "filter_vision" cs))%list
    /\ map ok (k_adj_filters k')
       = (map ok (k_adj_filters k)
          ++ map build (tagged "filter_adjacent" cs))%list
    /\ k_adj_is_enemy k'
       = (k_adj_is_enemy k
          ++ map (is_enemy_of lib) (tagged "filter_adjacent" cs))%list
    /\ k_adj_dirs k'
       = (k_adj_dirs k ++ map (dirs_of lib) (tagged "filter_adjacent" cs))%list
    /\ k_adj_counts k'
       = (k_adj_counts k
          ++ map (counts_of lib) (tagged "filter_adjacent" cs))%list
    /\ k_filter_loc k'
       = keep_or (k_filter_loc k)
           (option_map (fun c => {| tf_cfg := c; tf_flat_tod := flat_tod |})
                       (first_tagged "filter_location" cs))
    /\ k_filter_side k'
       = keep_or (k_filter_side k)
           (option_map (fun c => {| sf_cfg := c |})
                       (first_tagged "filter_side" cs)).
Proof.
  induction cs as [|[name child] cs IH]; intros k k' H.
  - cbn in H. injection H as <-.
    unfold conditional_types, conditional_children, tagged, first_tagged,
           keep_or.
    cbn. rewrite !app_nil_r.
    destruct (k_filter_loc k), (k_filter_side k); repeat split; reflexivity.
  - cbn [constructor_loop] in H. unfold conditional.string_to_TYPE in H.
    destruct (String.eqb name "and") eqn:E1;
    [|destruct (String.eqb name "or") eqn:E2;
      [|destruct (String.eqb name "not") eqn:E3;
        [|destruct (String.eqb name "filter_vision") eqn:E4;
          [|destruct (String.eqb name "filter_adjacent") eqn:E5;
            [|destruct (String.eqb name "filter_location") eqn:E6;
              [|destruct (String.eqb name "filter_side") eqn:E7]]]]]];
    try (match goal with
         | E : String.eqb name _ = true |- _ =>
             apply String.eqb_eq in E; subst name
         end);
    try (unfold build in H at 1;
         destruct (construct lib fc child flat_tod) as [g|msg] eqn:Eg;
         [|discriminate]);
    try (unfold add_filter_location in H;
         destruct (k_filter_loc k) eqn:Eloc; [discriminate|]);
    try (unfold add_filter_side in H;
         destruct (k_filter_side k) eqn:Eside; [discriminate|]);
    apply IH in H;
    destruct H as (H1 & H2 & H3 & H4 & H5 & H6 & H7 & H8 & H9 & H10);
    cbn [k_cond_children k_cond_child_types k_filter_loc k_filter_side
         k_viewers_lists k_visible_attr k_adj_filters k_adj_is_enemy
         k_adj_dirs k_adj_counts add_conditional add_filter_vision
         add_filter_adjacent] in *;
    rewrite H1, H2, H3, H4, H5, H6, H7, H8, H9, H10;
    unfold build in *;
    repeat split; field_done.
Qed.

End ConstructorShape.

Lemma built_from A B (F : B -> outcome A) (l : list A) (l2 : list B) :
  map ok l = map F l2 ->
  forall g, In g l -> exists c, In c l2 /\ F c = ok g.
Proof.
  revert l2. induction l as [|a l IH]; intros [|b l2] H g Hin;
    try discriminate; [contradiction|].
  cbn in H. injection H as Hab Hrest. destruct Hin as [<- | Hin].
  - exists b. split; [left; reflexivity | symmetry; exact Hab].
  - destruct (IH _ Hrest g Hin) as [c [Hc Hg]].
    exists c. split; [right; exact Hc | exact Hg].
Qed.

Lemma map_ok_length A B (F : B -> outcome A) (l : list A) (l2 : list B) :
  map ok l = map F l2 -> List.length l = List.length l2.
Proof.
  intro H. apply (f_equal (@List.length _)) in H.
  rewrite !length_map in H. exact H.
Qed.

Lemma conditional_types_length cs :
  List.length (conditional_types cs) = List.length (conditional_children cs).
Proof.
  unfold conditional_types, conditional_children, is_conditional.
  induction cs as [|[name c] cs IH]; [reflexivity|].
  cbn [flat_map filter fst].
  destruct (conditional.string_to_TYPE name); cbn; rewrite ?IH; reflexivity.
Qed.

Lemma tagged_in tag cs c :
  In c (tagged tag cs) -> exists name, In (name, c) cs.
Proof.
  unfold tagged. rewrite in_map_iff.
  intros [[name c'] [Heq Hin]]. cbn in Heq. subst c'.
  apply filter_In in Hin. exists name. exact (proj1 Hin).
Qed.

Lemma conditional_children_in cs c :
  In c (conditional_children cs) -> exists name, In (name, c) cs.
Proof.
  unfold conditional_children. rewrite in_map_iff.
  intros [[name c'] [Heq Hin]]. cbn in Heq. subst c'.
  apply filter_In in Hin. exists name. exact (proj1 Hin).
Qed.

Lemma construct_shape :
  forall lib fc flat_tod attrs cs f,
    construct lib fc (vnode attrs cs) flat_tod = ok f ->
    exists m,
      f = basic_unit_filter_impl m
      /\ cond_child_types_ m = conditional_types cs
      /\ map ok (cond_children_ m)
         = map (fun c => construct lib fc c flat_tod) (conditional_children cs)
      /\ vision_filters_viewers_lists_ m
         = map (viewers_of lib fc) (tagged "filter_vision" cs)
      /\ vision_filters_visible_attr_ m
         = map (visible_of lib) (tagged "filter_vision" cs)
      /\ map ok (filter_adj_filters_ m)
         = map (fun c => construct lib fc c flat_tod)
               (tagged "filter_adjacent" cs)
      /\ filter_adj_is_enemy_ m
         = map (is_enemy_of lib) (tagged "filter_adjacent" cs)
      /\ filter_adj_dirs_ m = map (dirs_of lib) (tagged "filter_adjacent" cs)
      /\ filter_adj_counts_ m
         = map (counts_of lib) (tagged "filter_adjacent" cs)
      /\ cfg_filter_loc_ m
         = option_map (fun c => {| tf_cfg := c; tf_flat_tod := flat_tod |})
                      (first_tagged "filter_location" cs)
      /\ cfg_filter_side_ m
         = option_map (fun c => {| sf_cfg := c |})
                      (first_tagged "filter_side" cs)
      /\ wmlcfgs_ m = tagged "filter_wml" cs
      /\ use_flat_tod_ m = flat_tod.
Proof.
  intros lib fc flat_tod attrs cs f H. cbn [construct] in H.
  destruct (constructor_loop _ _ _ _ cs _) as [k|msg] eqn:E; [|discriminate].
  injection H as <-.
  apply constructor_loop_collects in E.
  destruct E as (H1 & H2 & H3 & H4 & H5 & H6 & H7 & H8 & H9 & H10).
  eexists. split; [reflexivity|].
  cbn [initialise cond_child_types_ cond_children_
       vision_filters_viewers_lists_ vision_filters_visible_attr_
       filter_adj_filters_ filter_adj_is_enemy_ filter_adj_dirs_
       filter_adj_counts_ cfg_filter_loc_ cfg_filter_side_ wmlcfgs_
       use_flat_tod_].
  cbn [collected_init k_cond_children k_cond_child_types k_filter_loc
       k_filter_side k_viewers_lists k_visible_attr k_adj_filters
       k_adj_is_enemy k_adj_dirs k_adj_counts map app keep_or] in *.
  repeat split; assumption || reflexivity.
Qed.


(** X1.  The constructor's single pass sorts the children of a description
    by tag and keeps their order: the combinator types and filters are those
    of the [and], [or] and [not] children in description order, the vision
    and adjacency entries those of the [filter_vision] and [filter_adjacent]
    children, the location and side filters are built from the first
    [filter_location] and [filter_side] child, and the raw attribute filters
    are the [filter_wml] children. *)
Theorem construct_collects_by_tag :
  forall lib fc flat_tod attrs cs f,
    construct lib fc (vnode attrs cs) flat_tod = ok f ->
    exists m,
      f = basic_unit_filter_impl m
      /\ cond_child_types_ m = conditional_types cs
      /\ map ok (cond_children_ m)
         = map (fun c => construct lib fc c flat_tod) (conditional_children cs)
      /\ vision_filters_viewers_lists_ m
         = map (viewers_of lib fc) (tagged "filter_vision" cs)
      /\ vision_filters_visible_attr_ m
         = map (visible_of lib) (tagged "filter_vision" cs)
      /\ map ok (filter_adj_filters_ m)
         = map (fun c => construct lib fc c flat_tod)
               (tagged "filter_adjacent" cs)
      /\ filter_adj_is_enemy_ m
         = map (is_enemy_of lib) (tagged "filter_adjacent" cs)
      /\ filter_adj_dirs_ m = map (dirs_of lib) (tagged "filter_adjacent" cs)
      /\ filter_adj_counts_ m
         = map (counts_of lib) (tagged "filter_adjacent" cs)
      /\ cfg_filter_loc_ m
         = option_map (fun c => {| tf_cfg := c; tf_flat_tod := flat_tod |})
                      (first_tagged "filter_location" cs)
      /\ cfg_filter_side_ m
         = option_map (fun c => {| sf_cfg := c |})
                      (first_tagged "filter_side" cs)
      /\ wmlcfgs_ m = tagged "filter_wml" cs
      /\ use_flat_tod_ m = flat_tod.
Proof. exact construct_shape. Qed.

Lemma construct_collects_by_tag_witness :
  exists m,
    construct Sample.lib Sample.fc Sample.and_then_or false
    = ok (basic_unit_filter_impl m)
    /\ cond_child_types_ m = [conditional.AND; conditional.OR].
Proof.
  destruct (construct_collects_by_tag Sample.lib Sample.fc false
              [("name", "Nobody")]
              [("and", Sample.leaf [("name", "Nobody")]);
               ("or", Sample.leaf [("id", "u1")])] eq_refl)
    as [m [Hm [Ht _]]].
  exists m. split.
  - rewrite <- Hm. reflexivity.
  - exact Ht.
Defined.

Lemma construct_sizes :
  forall lib fc flat_tod vcfg f,
    construct lib fc vcfg flat_tod = ok f ->
    well_sized flat_tod f = true.
Proof.
  intros lib fc flat_tod vcfg.
  induction vcfg as [|attrs cs IH] using vconfig_children_ind; intros f H.
  - injection H as <-. reflexivity.
  - destruct (construct_shape _ _ _ _ _ H)
      as (m & -> & Ht & Hc & Hv1 & Hv2 & Ha & Ha1 & Ha2 & Ha3 & _ & _ & _ & Hf).
    assert (Hnested : forall c name g,
              In (name, c) cs -> construct lib fc c flat_tod = ok g ->
              well_sized flat_tod g = true).
    { intros c name g Hin Hg. rewrite Forall_forall in IH.
      exact (IH _ Hin g Hg). }
    cbn [well_sized]. rewrite Hf, Bool.eqb_reflx.
    rewrite (map_ok_length _ _ _ Hc), (map_ok_length _ _ _ Ha).
    rewrite Ht, Hv1, Hv2, Ha1, Ha2, Ha3, conditional_types_length.
    rewrite !length_map, !Nat.eqb_refl. cbn [andb].
    apply andb_true_iff. split; apply forallb_forall; intros g Hg.
    + destruct (built_from _ _ _ Hc g Hg) as [c [Hin Hok]].
      destruct (conditional_children_in _ _ Hin) as [name Hname].
      exact (Hnested _ _ _ Hname Hok).
    + destruct (built_from _ _ _ Ha g Hg) as [c [Hin Hok]].
      destruct (tagged_in _ _ _ Hin) as [name Hname].
      exact (Hnested _ _ _ Hname Hok).
Qed.


(** X2.  In every filter the constructor builds, and in every filter nested
    in it, the vectors indexed side by side have one size (the combinator
    filters and their types, the viewer sets and the visibility flags, the
    four adjacency vectors), so the size assertions of
    [internal_matches_filter] hold; and every filter carries the [flat_tod]
    given to the outermost constructor. *)
Theorem construct_well_sized :
  forall lib fc flat_tod vcfg f,
    construct lib fc vcfg flat_tod = ok f ->
    well_sized flat_tod f = true.
Proof. exact construct_sizes. Qed.

Lemma construct_well_sized_witness :
  well_sized false (Sample.built Sample.enemy_to_the_south) = true.
Proof.
  exact (construct_well_sized Sample.lib Sample.fc false
           Sample.enemy_to_the_south eq_refl).
Defined.

(** ** Tags and attributes the filter does not know *)

Section UnknownTags.

Variable lib : library.
Variable fc : filter_context.
Variable flat_tod : bool.

Let build := fun child : vconfig => construct lib fc child flat_tod.

Lemma constructor_loop_skips_unknown cs :
  forall k,
    constructor_loop lib fc build flat_tod (filter known_tag cs) k
    = constructor_loop lib fc build flat_tod cs k.
Proof.
  induction cs as [|[name child] cs IH]; intro k; [reflexivity|].
  cbn [filter]. unfold known_tag, is_conditional. cbn [fst].
  cbn [constructor_loop].
  destruct (conditional.string_to_TYPE name) eqn:Et; cbn [orb].
  - cbn [constructor_loop]. rewrite Et.
    destruct (build child); [apply IH | reflexivity].
  - destruct (String.eqb name "filter_vision") eqn:E4; cbn [orb].
    { cbn [constructor_loop]. rewrite Et, E4. apply IH. }
    destruct (String.eqb name "filter_adjacent") eqn:E5; cbn [orb].
    { cbn [constructor_loop]. rewrite Et, E4, E5.
      destruct (build child); [apply IH | reflexivity]. }
    destruct (String.eqb name "filter_location") eqn:E6; cbn [orb].
    { cbn [constructor_loop]. rewrite Et, E4, E5, E6.
      destruct (add_filter_location k child flat_tod);
        [apply IH | reflexivity]. }
    destruct (String.eqb name "filter_side") eqn:E7; cbn [orb].
    { cbn [constructor_loop]. rewrite Et, E4, E5, E6, E7.
      destruct (add_filter_side k child); [apply IH | reflexivity]. }
    destruct (String.eqb name "filter_wml") eqn:E8.
    { cbn [constructor_loop]. rewrite Et, E4, E5, E6, E7. apply IH. }
    apply IH.
Qed.

Lemma tagged_wml_known cs :
  tagged "filter_wml" (filter known_tag cs) = tagged "filter_wml" cs.
Proof.
  unfold tagged. f_equal.
  induction cs as [|[name child] cs IH]; [reflexivity|].
  cbn [filter fst]. unfold known_tag at 1. cbn [fst].
  destruct (String.eqb name "filter_wml") eqn:E.
  - rewrite !orb_true_r. cbn [filter fst]. rewrite E, IH. reflexivity.
  - destruct (_ || _); [cbn [filter fst]; rewrite E|]; exact IH.
Qed.

Lemma construct_skips_unknown attrs cs :
  construct lib fc (vnode attrs (filter known_tag cs)) flat_tod
  = construct lib fc (vnode attrs cs) flat_tod.
Proof.
  cbn [construct]. fold build. rewrite constructor_loop_skips_unknown.
  destruct (constructor_loop lib fc build flat_tod cs _); [|reflexivity].
  unfold initialise, get_children. cbn [attr ordered_children].
  fold (tagged "filter_wml" (filter known_tag cs)).
  fold (tagged "filter_wml" cs).
  rewrite tagged_wml_known. reflexivity.
Qed.

End UnknownTags.

(** X3.  A child block whose tag the constructor does not read is ignored:
    the description gives the same filter, or the same failure, with and
    without such blocks. *)
Theorem unknown_tags_are_ignored :
  forall lib fc flat_tod attrs cs,
    construct lib fc (vnode attrs (filter known_tag cs)) flat_tod
    = construct lib fc (vnode attrs cs) flat_tod.
Proof. intros. apply construct_skips_unknown. Qed.

Ltac absent_keys H :=
  repeat match type of H with
         | Forall _ (_ :: _) =>
             let H1 := fresh "Hkey" in
             let H2 := fresh "Hrest" in
             pose proof (Forall_inv H) as H1;
             pose proof (Forall_inv_tail H) as H2;
             clear H; rename H2 into H; cbn beta in H1
         end.

(** X4.  Absent attributes put no constraint: a description that sets none
    of the attributes the filter reads, and has no child block with a tag
    the constructor reads, builds a filter that matches every unit at every
    location and calls nothing. *)
Theorem unconstrained_filter_matches_all :
  forall lib fc flat_tod attrs cs,
    Forall (fun key => assoc key attrs = None) filter_keys ->
    forallb (fun kc => negb (known_tag kc)) cs = true ->
    exists f,
      construct lib fc (vnode attrs cs) flat_tod = ok f
      /\ forall u loc, matches lib fc f u loc = ret true.
Proof.
  intros lib fc flat_tod attrs cs Hkeys Htags.
  assert (Hnone : filter known_tag cs = []).
  { induction cs as [|kc cs IH]; [reflexivity|].
    cbn [forallb] in Htags. apply andb_true_iff in Htags.
    destruct Htags as [Hk Hcs]. cbn [filter].
    apply negb_true_iff in Hk. rewrite Hk. exact (IH Hcs). }
  rewrite <- construct_skips_unknown, Hnone.
  eexists. split; [reflexivity|].
  intros u loc. unfold filter_keys in Hkeys. absent_keys Hkeys.
  cbn [matches initialise collected_init filter_adj_filters_ cond_children_
       cond_child_types_ k_adj_filters k_cond_children k_cond_child_types
       map fold_conditions].
  unfold internal_matches_filter.
  cbn [initialise collected_init attr get_children ordered_children
       cfg_name_ cfg_id_ cfg_speaker_ cfg_filter_loc_
       cfg_filter_side_ cfg_x_ cfg_y_ cfg_type_ cfg_variation_type_
       cfg_has_variation_type_ cfg_ability_ cfg_race_ cfg_gender_ cfg_side_
       cfg_side_to_int_ cfg_has_weapon_ cfg_role_ cfg_ai_special_
       cfg_canrecruit_ cfg_recall_cost_ cfg_level_ cfg_defense_ cfg_movement_
       wmlcfgs_ vision_filters_viewers_lists_ vision_filters_visible_attr_
       filter_adj_filters_ filter_adj_is_enemy_ filter_adj_dirs_
       filter_adj_counts_ cfg_find_in_ cfg_formula_ cfg_lua_function_
       k_filter_loc k_filter_side k_viewers_lists k_visible_attr
       k_adj_is_enemy k_adj_dirs k_adj_counts].
  repeat match goal with
         | H : assoc _ attrs = None |- _ => rewrite H; clear H
         end.
  destruct (valid lib loc); reflexivity.
Qed.

Lemma unconstrained_filter_matches_all_witness :
  exists f,
    construct Sample.lib Sample.fc
      (vnode [("comment", "anyone")] [("note", Sample.leaf [("name", "x")])])
      false = ok f
    /\ forall u loc, matches Sample.lib Sample.fc f u loc = ret true.
Proof.
  apply unconstrained_filter_matches_all.
  - unfold filter_keys. repeat constructor.
  - reflexivity.
Defined.

(** ** Adding a combinator child *)

Section AppendChild.

Variable lib : library.
Variable fc : filter_context.
Variable flat_tod : bool.

Let build := fun child : vconfig => construct lib fc child flat_tod.

Lemma constructor_loop_app cs cs2 :
  forall k,
    constructor_loop lib fc build flat_tod (cs ++ cs2) k
    = match constructor_loop lib fc build flat_tod cs k with
      | ok k1 => constructor_loop lib fc build flat_tod cs2 k1
      | FAIL m => FAIL m
      end.
Proof.
  induction cs as [|[name child] cs IH]; intro k; [reflexivity|].
  cbn [app constructor_loop].
  destruct (conditional.string_to_TYPE name).
  { destruct (build child); [apply IH | reflexivity]. }
  destruct (String.eqb name "filter_vision"); [apply IH|].
  destruct (String.eqb name "filter_adjacent").
  { destruct (build child); [apply IH | reflexivity]. }
  destruct (String.eqb name "filter_location").
  { destruct (add_filter_location k child flat_tod); [apply IH | reflexivity]. }
  destruct (String.eqb name "filter_side"); [|apply IH].
  destruct (add_filter_side k child); [apply IH | reflexivity].
Qed.

Lemma combine_app A B (l1 l2 : list A) (l1' l2' : list B) :
  List.length l1 = List.length l1' ->
  combine (l1 ++ l2) (l1' ++ l2') = (combine l1 l1' ++ combine l2 l2')%list.
Proof.
  revert l1'. induction l1 as [|a l1 IH]; intros [|b l1'] H;
    try discriminate; [reflexivity|].
  cbn. f_equal. apply IH. injection H as H. exact H.
Qed.

Lemma tagged_app_other tag name c cs :
  String.eqb name tag = false ->
  tagged tag (cs ++ [(name, c)]) = tagged tag cs.
Proof.
  intro H. unfold tagged. rewrite filter_app. cbn [filter fst].
  rewrite H, app_nil_r. reflexivity.
Qed.

Lemma conditional_tag_is_not_wml tag type :
  conditional.string_to_TYPE tag = Some type ->
  String.eqb tag "filter_wml" = false.
Proof.
  unfold conditional.string_to_TYPE.
  destruct (String.eqb_spec tag "and") as [->|_]; [reflexivity|].
  destruct (String.eqb_spec tag "or") as [->|_]; [reflexivity|].
  destruct (String.eqb_spec tag "not") as [->|_]; [reflexivity|discriminate].
Qed.

Lemma append_combinator attrs cs tag type c f g :
  conditional.string_to_TYPE tag = Some type ->
  construct lib fc (vnode attrs cs) flat_tod = ok f ->
  construct lib fc c flat_tod = ok g ->
  exists f',
    construct lib fc (vnode attrs (cs ++ [(tag, c)])) flat_tod = ok f'
    /\ forall u loc,
         value (matches lib fc f' u loc)
         = combinator_step (value (matches lib fc f u loc))
                           (type, value (matches lib fc g u loc)).
Proof.
  intros Htype Hf Hg.
  pose proof (construct_sizes _ _ _ _ Hf) as Hsized.
  cbn [construct] in Hf |- *. fold build in Hf |- *.
  rewrite constructor_loop_app.
  destruct (constructor_loop lib fc build flat_tod cs _) as [k|msg];
    [|discriminate].
  injection Hf as <-.
  cbn [constructor_loop]. rewrite Htype. unfold build at 1. rewrite Hg.
  eexists. split; [reflexivity|].
  intros u loc. rewrite !value_matches_basic.
  cbn [well_sized] in Hsized.
  repeat (apply andb_true_iff in Hsized; destruct Hsized as [Hsized ?]).
  match goal with
  | H : Nat.eqb (List.length (cond_children_ _)) _ = true |- _ =>
      apply Nat.eqb_eq in H; rename H into Hlen
  end.
  cbn [initialise cond_children_ cond_child_types_] in Hlen.
  assert (Hlocal :
    local_predicate lib fc
      (initialise lib (vnode attrs (cs ++ [(tag, c)])) flat_tod
                  (add_conditional k type g)) u loc
    = local_predicate lib fc (initialise lib (vnode attrs cs) flat_tod k)
                      u loc).
  { unfold local_predicate, internal_matches_filter, initialise, get_children.
    cbn [attr ordered_children add_conditional
         cfg_name_ cfg_id_ cfg_speaker_ cfg_filter_loc_
         cfg_filter_side_ cfg_x_ cfg_y_ cfg_type_ cfg_variation_type_
         cfg_has_variation_type_ cfg_ability_ cfg_race_ cfg_gender_ cfg_side_
         cfg_side_to_int_ cfg_has_weapon_ cfg_role_ cfg_ai_special_
         cfg_canrecruit_ cfg_recall_cost_ cfg_level_ cfg_defense_
         cfg_movement_ wmlcfgs_ vision_filters_viewers_lists_
         vision_filters_visible_attr_ filter_adj_filters_
         filter_adj_is_enemy_ filter_adj_dirs_ filter_adj_counts_
         cfg_find_in_ cfg_formula_ cfg_lua_function_
         k_filter_loc k_filter_side k_viewers_lists k_visible_attr
         k_adj_filters k_adj_is_enemy k_adj_dirs k_adj_counts].
    fold (tagged "filter_wml" (cs ++ [(tag, c)])).
    fold (tagged "filter_wml" cs).
    rewrite tagged_app_other
      by (eapply conditional_tag_is_not_wml; exact Htype).
    reflexivity. }
  rewrite Hlocal.
  unfold combinator_entries.
  cbn [initialise add_conditional cond_children_ cond_child_types_
       k_cond_children k_cond_child_types].
  unfold push_back. rewrite map_app.
  rewrite combine_app by (rewrite length_map; symmetry; exact Hlen).
  rewrite fold_left_app. reflexivity.
Qed.

End AppendChild.

(** X5.  Appending an [and], [or] or [not] child to a description that
    builds a filter gives a filter whose result, for every unit and
    location, is the result of the first filter combined with the result of
    the child's filter by that operator: [old && child], [old || child] or
    [old && negb child]. *)
Theorem appended_combinator_composes :
  forall lib fc flat_tod attrs cs tag type c f g,
    conditional.string_to_TYPE tag = Some type ->
    construct lib fc (vnode attrs cs) flat_tod = ok f ->
    construct lib fc c flat_tod = ok g ->
    exists f',
      construct lib fc (vnode attrs (cs ++ [(tag, c)])) flat_tod = ok f'
      /\ forall u loc,
           value (matches lib fc f' u loc)
           = combinator_step (value (matches lib fc f u loc))
                             (type, value (matches lib fc g u loc)).
Proof. intros. eapply append_combinator; eassumption. Qed.

Lemma appended_combinator_composes_witness :
  exists f',
    construct Sample.lib Sample.fc
      (vnode [("name", "Nobody")]
             ([("and", Sample.leaf [("name", "Nobody")])]
              ++ [("or", Sample.leaf [("id", "u1")])])) false = ok f'
    /\ forall u loc,
         value (matches Sample.lib Sample.fc f' u loc)
         = combinator_step
             (value (matches Sample.lib Sample.fc
                       (Sample.built
                          (vnode [("name", "Nobody")]
                                 [("and", Sample.leaf [("name", "Nobody")])]))
                       u loc))
             (conditional.OR,
              value (matches Sample.lib Sample.fc
                       (Sample.built (Sample.leaf [("id", "u1")])) u loc)).
Proof.
  exact (appended_combinator_composes Sample.lib Sample.fc false
           [("name", "Nobody")] [("and", Sample.leaf [("name", "Nobody")])]
           "or" (Sample.leaf [("id", "u1")]) eq_refl eq_refl eq_refl).
Defined.

(** ** [find_in] with game data *)

(** X6.  With game data at hand a [find_in] attribute fails closed: the
    local predicate can only hold if the named variable can be read as an
    array and one of its records has the [id] of the unit; a name the store
    rejects, or an array without such a record, is a non-match. *)
Theorem find_in_fails_closed :
  forall lib fc gd (m : basic_members unit_filter) nested u loc,
    get_game_data fc = Some gd ->
    blank (cfg_find_in_ m) = false ->
    value (internal_matches_filter lib fc m nested u loc) = true ->
    exists as_array c,
      get_variable_access_read gd (str (cfg_find_in_ m)) = Some as_array
      /\ In c as_array
      /\ attr c "id" = Some (id u).
Proof.
  intros lib fc gd m nested u loc Hgd Hset Hmatch.
  apply internal_matches_filter_true in Hmatch.
  destruct Hmatch as (_ & _ & _ & Hfind).
  unfold find_in_fails in Hfind. rewrite Hset, Hgd in Hfind.
  cbn [negb] in Hfind.
  destruct (get_variable_access_read gd (str (cfg_find_in_ m)))
    as [as_array|]; [|discriminate].
  apply negb_false_iff, existsb_exists in Hfind.
  destruct Hfind as [c [Hin Heq]].
  exists as_array, c. split; [reflexivity|]. split; [exact Hin|].
  unfold attr_eq in Heq. destruct (attr c "id") as [v|]; [|discriminate].
  apply String.eqb_eq in Heq. subst v. reflexivity.
Qed.

Lemma find_in_fails_closed_witness :
  exists as_array c,
    Some [vnode [("id", "u1")] []] = Some as_array
    /\ In c as_array
    /\ attr c "id" = Some (id Sample.konrad).
Proof.
  exact (@find_in_fails_closed Sample.lib
           {| units := units Sample.fc; teams := teams Sample.fc;
              on_board := on_board Sample.fc;
              get_terrain := get_terrain Sample.fc;
              get_game_data :=
                Some {| get_variable_access_read :=
                          fun _ => Some [vnode [("id", "u1")] []] |};
              get_lua_kernel := None |}
           {| get_variable_access_read :=
                fun _ => Some [vnode [("id", "u1")] []] |}
           (initialise Sample.lib Sample.found_in_store false
                       (collected_init unit_filter))
           [] Sample.konrad (get_location Sample.konrad)
           eq_refl eq_refl eq_refl).
Defined.

(** ** The two map queries together *)

Lemma find_is_head_of_filter A (p : A -> bool) (l : list A) :
  List.find p l = hd_error (filter p l).
Proof.
  induction l as [|a l IH]; [reflexivity|].
  cbn [List.find filter]. destruct (p a); [reflexivity | exact IH].
Qed.

(** X7.  [first_match_on_map] returns the first of the units
    [all_matches_on_map] returns, and the empty pointer when that list is
    empty: for every basic filter, and for the null filter in a world that
    has a unit. *)
Theorem first_match_heads_all_matches :
  forall lib fc f,
    (f = null_unit_filter_impl -> units fc <> []) ->
    value (first_match_on_map lib fc f)
    = shared_ptr (hd_error (value (all_matches_on_map lib fc f))).
Proof.
  intros lib fc f Hworld.
  rewrite all_matches_on_map_spec. unfold matching_units.
  rewrite <- find_is_head_of_filter.
  destruct f as [|m].
  - destruct (units fc) as [|u us] eqn:E;
      [exfalso; exact (Hworld eq_refl eq_refl)|].
    rewrite <- E. apply first_match_on_map_null with (u := u) (us := us).
    exact E.
  - apply first_match_on_map_basic.
Qed.

Lemma first_match_heads_all_matches_witness :
  value (first_match_on_map Sample.lib Sample.fc
           (Sample.built Sample.any_neighbour))
  = shared_ptr (Some Sample.konrad).
Proof.
  rewrite first_match_heads_all_matches; [reflexivity | discriminate].
Defined.

(** ** The viewer sets *)

Lemma set_insert_in v a s : In v (set_insert a s) <-> v = a \/ In v s.
Proof.
  induction s as [|h t IH]; cbn [set_insert].
  - cbn. intuition.
  - destruct (Z.ltb_spec a h).
    + cbn. intuition.
    + destruct (Z.eqb_spec a h) as [->|Hne].
      * cbn. intuition.
      * cbn [In]. rewrite IH. intuition.
Qed.

Lemma set_insert_sorted a s :
  StronglySorted Z.lt s -> StronglySorted Z.lt (set_insert a s).
Proof.
  induction 1 as [|h t Ht IH Hh]; cbn [set_insert].
  - repeat constructor.
  - destruct (Z.ltb_spec a h).
    + constructor; [constructor; assumption|].
      constructor; [assumption|].
      rewrite Forall_forall in *. intros z Hz. specialize (Hh z Hz). lia.
    + destruct (Z.eqb_spec a h) as [->|Hne].
      * constructor; assumption.
      * constructor; [exact IH|].
        rewrite Forall_forall in *. intros z Hz.
        apply set_insert_in in Hz. destruct Hz as [-> | Hz];
          [lia | exact (Hh z Hz)].
Qed.

Lemma set_insert_range_spec vs :
  forall s,
    StronglySorted Z.lt s ->
    StronglySorted Z.lt (set_insert_range s vs)
    /\ forall v, In v (set_insert_range s vs) <-> In v s \/ In v vs.
Proof.
  unfold set_insert_range.
  induction vs as [|a vs IH]; intros s Hs; cbn [fold_left].
  - split; [exact Hs|]. cbn. intuition.
  - destruct (IH (set_insert a s) (set_insert_sorted a Hs)) as [Hsorted Hin].
    split; [exact Hsorted|].
    intro v. rewrite Hin, set_insert_in. cbn [In]. intuition.
Qed.

Lemma existsb_same_members A (p : A -> bool) (l l' : list A) :
  (forall v, In v l <-> In v l') -> existsb p l = existsb p l'.
Proof.
  intro H. apply eq_true_iff_eq. rewrite !existsb_exists.
  split; intros [v [Hin Hp]]; exists v;
    (split; [apply H; exact Hin | exact Hp]).
Qed.

(** X8.  The viewer set the constructor keeps for a [filter_vision] child
    is strictly increasing, so without repetition, and has exactly the
    sides the side filter returns; the vision check over it is the any-of
    check over those sides. *)
Theorem viewers_are_the_sides :
  forall lib fc f,
    StronglySorted Z.lt (viewers_of lib fc f)
    /\ (forall v,
          In v (viewers_of lib fc f) <-> In v (side_filter_get_teams lib fc f))
    /\ (forall u loc visible,
          vision_found fc u loc (viewers_of lib fc f) visible
          = vision_found fc u loc (side_filter_get_teams lib fc f) visible).
Proof.
  intros lib fc f. unfold viewers_of.
  destruct (set_insert_range_spec (side_filter_get_teams lib fc f)
              (SSorted_nil Z.lt)) as [Hsorted Hin].
  assert (Hsame : forall v,
            In v (set_insert_range [] (side_filter_get_teams lib fc f))
            <-> In v (side_filter_get_teams lib fc f)).
  { intro v. rewrite Hin. cbn. intuition. }
  split; [exact Hsorted|]. split; [exact Hsame|].
  intros u loc visible. unfold vision_found.
  apply existsb_same_members. exact Hsame.
Qed.

(** ** How often an adjacency filter is called *)

Section AdjacencyCalls.

Variable lib : library.
Variable fc : filter_context.

Lemma adjacent_counts_calls u loc i i' nested e j n :
  evaluations (adj_filter i')
    (trace (adjacent_counts lib fc u loc i nested e j n))
  = if Nat.eqb i' i && occupied lib fc loc j then 1%nat else 0%nat.
Proof.
  unfold adjacent_counts, occupied.
  destruct (units_find fc (get_adjacent_tiles lib loc j)) as [nb|].
  - rewrite evaluations_bind, evaluations_call_nested. cbn [call_eqb].
    rewrite andb_true_r.
    assert (Hrest : forall b,
      evaluations (adj_filter i')
        (trace (if negb b then ret n
                else match e with
                     | Some e0 =>
                         if Bool.eqb e0
                              (is_enemy (team_of fc (side u)) (side nb))
                         then ret (n + 1) else ret n
                     | None => ret (n + 1)
                     end)) = 0%nat).
    { intros [|]; cbn [negb]; [|reflexivity].
      destruct e as [e0|]; [destruct (Bool.eqb _ _)|]; reflexivity. }
    rewrite Hrest. apply Nat.add_0_r.
  - rewrite andb_false_r. reflexivity.
Qed.

Lemma count_adjacent_calls u loc i i' nested e dirs n :
  evaluations (adj_filter i')
    (trace (count_adjacent lib fc u loc i nested e dirs n))
  = if Nat.eqb i' i then List.length (filter (occupied lib fc loc) dirs)
    else 0%nat.
Proof.
  revert n. induction dirs as [|j dirs IH]; intro n;
    cbn [count_adjacent filter].
  - destruct (Nat.eqb i' i); reflexivity.
  - rewrite evaluations_bind, adjacent_counts_calls, IH.
    destruct (Nat.eqb i' i), (occupied lib fc loc j); reflexivity.
Qed.

End AdjacencyCalls.

(** X9.  Counting the neighbours of an adjacency entry calls the nested
    filter of that entry once for every configured direction whose
    neighbour hex holds a unit, never for an empty hex, and calls no other
    entry's filter. *)
Theorem adjacency_filter_called_per_occupied_hex :
  forall lib fc u loc i i' nested e dirs n,
    evaluations (adj_filter i')
      (trace (count_adjacent lib fc u loc i nested e dirs n))
    = if Nat.eqb i' i
      then List.length (filter (occupied lib fc loc) dirs)
      else 0%nat.
Proof. intros. apply count_adjacent_calls. Qed.

(** ** Formula and scripting come last *)

Section ScriptsLast.

Variable lib : library.
Variable fc : filter_context.

Lemma existsb_trace_bind A B (p : event -> bool) (m : eval A)
    (k : A -> eval B) :
  existsb p (trace (bind m k))
  = existsb p (trace m) || existsb p (trace (k (value m))).
Proof. rewrite trace_bind. apply existsb_app. Qed.

Lemma no_script_under c t : existsb runs_script (map (under c) t) = false.
Proof. induction t as [|[p a] t IH]; [reflexivity | exact IH]. Qed.

Lemma no_script_call_nested A c (m : eval A) :
  existsb runs_script (trace (call_nested c m)) = false.
Proof. unfold call_nested, trace. cbn. apply no_script_under. Qed.

Lemma no_script_adjacent_counts u loc i nested e j n :
  existsb runs_script (trace (adjacent_counts lib fc u loc i nested e j n))
  = false.
Proof.
  unfold adjacent_counts.
  destruct (units_find fc (get_adjacent_tiles lib loc j)); [|reflexivity].
  rewrite existsb_trace_bind, no_script_call_nested. cbn [orb].
  destruct (negb _); [reflexivity|].
  destruct e as [e0|]; [destruct (Bool.eqb _ _)|]; reflexivity.
Qed.

Lemma no_script_count_adjacent u loc i nested e dirs n :
  existsb runs_script (trace (count_adjacent lib fc u loc i nested e dirs n))
  = false.
Proof.
  revert n. induction dirs as [|j dirs IH]; intro n; [reflexivity|].
  cbn [count_adjacent].
  rewrite existsb_trace_bind, no_script_adjacent_counts. apply IH.
Qed.

Lemma no_script_adjacent_pass u loc i filters es ds cs :
  existsb runs_script (trace (adjacent_pass lib fc u loc i filters es ds cs))
  = false.
Proof.
  revert i es ds cs.
  induction filters as [|nested filters IH];
    intros i [|e es] [|d ds] [|c cs]; try reflexivity.
  cbn [adjacent_pass].
  rewrite existsb_trace_bind, no_script_count_adjacent. cbn [orb].
  destruct (negb _); [reflexivity | apply IH].
Qed.

Ltac skip_check :=
  match goal with
  | |- context [if ?c then ret false else _] => destruct c; [reflexivity|]
  end.

Lemma no_script_before_scripts (m : basic_members unit_filter) nested u loc :
  existsb runs_script
    (trace (internal_matches_filter lib fc (without_scripts m) nested u loc))
  = false.
Proof.
  unfold internal_matches_filter.
  repeat skip_check.
  rewrite existsb_trace_bind, no_script_adjacent_pass. cbn [orb].
  repeat skip_check.
  reflexivity.
Qed.

Lemma scripts_come_last (m : basic_members unit_filter) nested u loc :
  internal_matches_filter lib fc m nested u loc
  = bind (internal_matches_filter lib fc (without_scripts m) nested u loc)
         (fun passed =>
            if passed
            then formula_and_lua lib fc (cfg_formula_ m) (cfg_lua_function_ m)
                                 u loc
            else ret false).
Proof.
  unfold internal_matches_filter.
  cbn [without_scripts cfg_name_ cfg_id_ cfg_speaker_ cfg_filter_loc_
       cfg_filter_side_ cfg_x_ cfg_y_ cfg_type_ cfg_variation_type_
       cfg_has_variation_type_ cfg_ability_ cfg_race_ cfg_gender_ cfg_side_
       cfg_side_to_int_ cfg_has_weapon_ cfg_role_ cfg_ai_special_
       cfg_canrecruit_ cfg_recall_cost_ cfg_level_ cfg_defense_ cfg_movement_
       wmlcfgs_ vision_filters_viewers_lists_ vision_filters_visible_attr_
       filter_adj_filters_ filter_adj_is_enemy_ filter_adj_dirs_
       filter_adj_counts_ cfg_find_in_ cfg_formula_ cfg_lua_function_].
  repeat skip_check.
  destruct (adjacent_pass lib fc u loc 0 nested (filter_adj_is_enemy_ m)
              (filter_adj_dirs_ m) (filter_adj_counts_ m)) as [ok_ t].
  destruct ok_, (find_in_fails fc (cfg_find_in_ m) u); cbn;
    rewrite ?app_nil_r; reflexivity.
Qed.

End ScriptsLast.

(** X10.  The local predicate runs its own formula and scripting function
    after every other check: it is the predicate without the two, followed
    by them only if it passed.  So for a unit that fails any other check the
    result is false, the filter runs neither its formula nor its scripting
    function, and the calls made are exactly those of the predicate without
    the two: the calls of the adjacency check on the nested adjacency
    filters, which run what formulas they carry themselves. *)
Theorem scripts_run_only_after_other_checks :
  forall lib fc (m : basic_members unit_filter) nested u loc,
    internal_matches_filter lib fc m nested u loc
    = bind (internal_matches_filter lib fc (without_scripts m) nested u loc)
           (fun passed =>
              if passed
              then formula_and_lua lib fc (cfg_formula_ m)
                                   (cfg_lua_function_ m) u loc
              else ret false)
    /\ (value (internal_matches_filter lib fc (without_scripts m) nested u loc)
        = false ->
        value (internal_matches_filter lib fc m nested u loc) = false
        /\ existsb runs_script
             (trace (internal_matches_filter lib fc m nested u loc)) = false
        /\ trace (internal_matches_filter lib fc m nested u loc)
           = trace (internal_matches_filter lib fc (without_scripts m) nested
                      u loc)).
Proof.
  intros lib fc m nested u loc. split; [apply scripts_come_last|].
  intro Hfails.
  rewrite (scripts_come_last lib fc m nested u loc).
  rewrite value_bind, existsb_trace_bind, trace_bind, Hfails,
    no_script_before_scripts.
  cbn [trace ret snd]. rewrite app_nil_r.
  repeat split; reflexivity.
Qed.

Lemma scripts_run_only_after_other_checks_witness :
  let m := initialise Sample.lib
             (Sample.leaf [("name", "Nobody"); ("formula", "1")])
             false (collected_init unit_filter) in
  construct Sample.lib Sample.fc
    (Sample.leaf [("name", "Nobody"); ("formula", "1")]) false
  = ok (basic_unit_filter_impl m)
  /\ value (internal_matches_filter Sample.lib Sample.fc m []
              Sample.konrad (get_location Sample.konrad)) = false
  /\ existsb runs_script
       (trace (internal_matches_filter Sample.lib Sample.fc m []
                 Sample.konrad (get_location Sample.konrad))) = false
  /\ trace (internal_matches_filter Sample.lib Sample.fc m []
              Sample.konrad (get_location Sample.konrad))
     = trace (internal_matches_filter Sample.lib Sample.fc (without_scripts m)
                [] Sample.konrad (get_location Sample.konrad)).
Proof.
  intro m. split; [reflexivity|].
  exact (proj2 (scripts_run_only_after_other_checks Sample.lib Sample.fc
                  m [] Sample.konrad (get_location Sample.konrad))
               eq_refl).
Defined.

(** ** No scripting without a kernel *)

Section NoKernel.

Variable lib : library.
Variable fc : filter_context.
Hypothesis no_kernel : get_lua_kernel fc = None.

Local Abbreviation no_lua t := (existsb runs_lua_anywhere t = false).

Lemma no_lua_under c t :
  existsb runs_lua_anywhere (map (under c) t) = existsb runs_lua_anywhere t.
Proof.
  induction t as [|[p a] t IH]; [reflexivity|].
  cbn [map existsb]. rewrite IH. reflexivity.
Qed.

Lemma no_lua_call_nested A c (m : eval A) :
  no_lua (trace m) -> no_lua (trace (call_nested c m)).
Proof.
  intro H. unfold call_nested, trace. cbn [snd existsb].
  rewrite no_lua_under. exact H.
Qed.

Lemma no_lua_bind A B (m : eval A) (k : A -> eval B) :
  no_lua (trace m) -> (forall a, no_lua (trace (k a))) ->
  no_lua (trace (bind m k)).
Proof.
  intros Hm Hk. rewrite existsb_trace_bind, Hm. apply Hk.
Qed.

Lemma no_lua_adjacent_counts u loc i nested e j n :
  (forall u', no_lua (trace (nested u'))) ->
  no_lua (trace (adjacent_counts lib fc u loc i nested e j n)).
Proof.
  intro Hn. unfold adjacent_counts.
  destruct (units_find fc (get_adjacent_tiles lib loc j)); [|reflexivity].
  apply no_lua_bind; [apply no_lua_call_nested, Hn|].
  intros [|]; cbn [negb]; [|reflexivity].
  destruct e as [e0|]; [destruct (Bool.eqb _ _)|]; reflexivity.
Qed.

Lemma no_lua_count_adjacent u loc i nested e dirs n :
  (forall u', no_lua (trace (nested u'))) ->
  no_lua (trace (count_adjacent lib fc u loc i nested e dirs n)).
Proof.
  intro Hn. revert n. induction dirs as [|j dirs IH]; intro n; [reflexivity|].
  cbn [count_adjacent].
  apply no_lua_bind; [apply no_lua_adjacent_counts, Hn | intro; apply IH].
Qed.

Lemma no_lua_adjacent_pass u loc i filters es ds cs :
  Forall (fun nested : unit -> eval bool =>
            forall u', no_lua (trace (nested u'))) filters ->
  no_lua (trace (adjacent_pass lib fc u loc i filters es ds cs)).
Proof.
  intro H. revert i es ds cs.
  induction H as [|nested filters Hn _ IH];
    intros i [|e es] [|d ds] [|c cs]; try reflexivity.
  cbn [adjacent_pass].
  apply no_lua_bind; [apply no_lua_count_adjacent, Hn|].
  intro count. destruct (negb _); [reflexivity | apply IH].
Qed.

Lemma no_lua_formula_and_lua f l u loc :
  no_lua (trace (formula_and_lua lib fc f l u loc)).
Proof.
  unfold formula_and_lua. rewrite no_kernel.
  destruct (negb (blank f)), (negb (blank l)); cbn;
    destruct (formula_matches_filter lib (str f) loc u); reflexivity.
Qed.

Ltac skip_quiet_check :=
  match goal with
  | |- context [if ?c then ret false else _] => destruct c; [reflexivity|]
  end.

Lemma no_lua_internal_matches_filter (m : basic_members unit_filter)
    nested u loc :
  Forall (fun nf : unit -> eval bool => forall u', no_lua (trace (nf u')))
         nested ->
  no_lua (trace (internal_matches_filter lib fc m nested u loc)).
Proof.
  intro Hn. unfold internal_matches_filter.
  repeat skip_quiet_check.
  apply no_lua_bind; [apply no_lua_adjacent_pass, Hn|].
  intro passed.
  repeat skip_quiet_check.
  apply no_lua_formula_and_lua.
Qed.

Lemma no_lua_fold_conditions children types i acc :
  Forall (fun child : eval bool => no_lua (trace child)) children ->
  no_lua (trace (fold_conditions children types i acc)).
Proof.
  intro H. revert types i acc.
  induction H as [|child children Hc _ IH]; intros [|type types] i acc;
    try reflexivity.
  cbn [fold_conditions].
  apply no_lua_bind; [|intro; apply IH].
  destruct type, acc; try reflexivity;
    try apply no_lua_bind; try (intro; reflexivity);
    apply no_lua_call_nested, Hc.
Qed.

Lemma no_lua_matches f :
  forall u loc, no_lua (trace (matches lib fc f u loc)).
Proof.
  induction f as [|m IHc IHa] using unit_filter_nested_ind; intros u loc.
  - reflexivity.
  - rewrite matches_basic. apply no_lua_bind.
    + unfold local_predicate. apply no_lua_internal_matches_filter.
      apply Forall_map. revert IHa. apply Forall_impl.
      intros g Hg u'. apply Hg.
    + intro matches0. apply no_lua_fold_conditions.
      apply Forall_map. revert IHc. apply Forall_impl.
      intros g Hg. apply Hg.
Qed.

End NoKernel.

(** X11.  Without a scripting kernel no scripting function is ever run: a
    query on any filter, however deep the filters nested in it, makes no
    call into the kernel, whatever [lua_function] attributes the filters
    carry. *)
Theorem no_kernel_no_scripting :
  forall lib fc f u loc,
    get_lua_kernel fc = None ->
    existsb runs_lua_anywhere (trace (matches lib fc f u loc)) = false.
Proof. intros lib fc f u loc H. apply no_lua_matches. exact H. Qed.

Lemma no_kernel_no_scripting_witness :
  existsb runs_lua_anywhere
    (trace (matches Sample.lib Sample.fc
              (Sample.built
                 (vnode [("lua_function", "pick")]
                        [("or", Sample.leaf [("lua_function", "other")])]))
              Sample.konrad (get_location Sample.konrad))) = false.
Proof.
  exact (no_kernel_no_scripting Sample.lib Sample.fc _ Sample.konrad
           (get_location Sample.konrad) eq_refl).
Defined.

(** ** The label actions *)

Lemma loc_eqb_eq a b : loc_eqb a b = true <-> a = b.
Proof.
  unfold loc_eqb. destruct a as [ax ay], b as [bx b_y]. cbn [x y].
  rewrite andb_true_iff, !Z.eqb_eq. split.
  - intros [-> ->]. reflexivity.
  - intros [= -> ->]. split; reflexivity.
Qed.

Lemma loc_eq_dec (a b : map_location) : {a = b} + {a <> b}.
Proof.
  destruct (loc_eqb a b) eqn:E.
  - left. apply loc_eqb_eq. exact E.
  - right. intro H. apply loc_eqb_eq in H. congruence.
Qed.

Section LabelActionFacts.

Import editor.

Variables Color Labels : Type.
Variable ops : map_labels_ops Color Labels.
Hypothesis keyed : keyed_by_location ops.

Lemma relabel_restores mc loc old :
  text old <> "" ->
  get_label ops (perform_without_undo ops (relabel loc old) mc) loc = Some old.
Proof.
  intro Htext. unfold relabel. cbn [perform_without_undo].
  rewrite (get_set_label keyed) by exact Htext.
  destruct old; reflexivity.
Qed.

Lemma perform_without_undo_other a mc loc loc' :
  loc' <> loc ->
  match a with
  | editor_action_label l _ _ _ _ _ _ | editor_action_label_delete l => l = loc
  end ->
  get_label ops (perform_without_undo ops a mc) loc' = get_label ops mc loc'.
Proof.
  intros Hne Hloc.
  destruct a; subst; cbn [perform_without_undo];
    apply (get_set_other keyed); exact Hne.
Qed.

Lemma perform_keeps_text a mc :
  labels_have_text ops mc -> labels_have_text ops (snd (perform ops a mc)).
Proof.
  intros Hinv loc l.
  assert (Hset : forall at_ t tn c f s i,
            get_label ops (set_label ops mc at_ t tn c f s i) loc = Some l ->
            text l <> "").
  { intros at_ t tn c f s i Hl.
    destruct (loc_eq_dec loc at_) as [->|Hne].
    - destruct (String.eqb_spec t "") as [->|Ht].
      + rewrite (get_set_empty keyed) in Hl. discriminate.
      + rewrite (get_set_label keyed) in Hl by exact Ht.
        injection Hl as <-. exact Ht.
    - rewrite (get_set_other keyed) in Hl by exact Hne.
      exact (Hinv _ _ Hl). }
  destruct a as [loc_ t tn c f s i | loc_]; cbn [perform].
  - cbn [snd perform_without_undo]. apply Hset.
  - destruct (get_label ops mc loc_); cbn [snd perform_without_undo].
    + apply Hset.
    + apply Hinv.
Qed.

Lemma undo_restores a mc undo mc' :
  labels_have_text ops mc ->
  perform ops a mc = (Some undo, mc') ->
  forall loc, get_label ops (snd (perform ops undo mc')) loc
              = get_label ops mc loc.
Proof.
  intros Hinv Hperform loc.
  destruct a as [loc_ t tn c f s i | loc_]; cbn [perform] in Hperform.
  - injection Hperform as <- <-. cbn [perform_without_undo].
    destruct (get_label ops mc loc_) as [old|] eqn:Hold.
    + cbn [perform relabel snd].
      destruct (loc_eq_dec loc loc_) as [->|Hne].
      * rewrite Hold. apply relabel_restores. exact (Hinv _ _ Hold).
      * rewrite perform_without_undo_other with (loc := loc_);
          [|exact Hne|reflexivity].
        apply (get_set_other keyed). exact Hne.
    + cbn [perform].
      destruct (String.eqb_spec t "") as [->|Ht].
      * rewrite (get_set_empty keyed). cbn [snd].
        destruct (loc_eq_dec loc loc_) as [->|Hne].
        -- rewrite (get_set_empty keyed). symmetry. exact Hold.
        -- apply (get_set_other keyed). exact Hne.
      * rewrite (get_set_label keyed) by exact Ht.
        cbn [snd perform_without_undo].
        destruct (loc_eq_dec loc loc_) as [->|Hne].
        -- rewrite (get_set_empty keyed). symmetry. exact Hold.
        -- rewrite !(get_set_other keyed) by exact Hne. reflexivity.
  - destruct (get_label ops mc loc_) as [deleted|] eqn:Hold; [|discriminate].
    injection Hperform as <- <-. cbn [perform relabel snd].
    destruct (loc_eq_dec loc loc_) as [->|Hne].
    + rewrite Hold. apply relabel_restores. exact (Hinv _ _ Hold).
    + rewrite perform_without_undo_other with (loc := loc_);
        [|exact Hne|reflexivity].
      cbn [perform_without_undo]. apply (get_set_other keyed). exact Hne.
Qed.

End LabelActionFacts.

Lemma sample_ops_keyed : editor.keyed_by_location editor.sample_ops.
Proof.
  constructor; cbn; intros.
  - replace (loc_eqb loc loc) with true by (symmetry; apply loc_eqb_eq; auto).
    destruct (String.eqb_spec t ""); [contradiction | reflexivity].
  - replace (loc_eqb loc loc) with true by (symmetry; apply loc_eqb_eq; auto).
    reflexivity.
  - destruct (loc_eqb loc' loc) eqn:E; [|reflexivity].
    apply loc_eqb_eq in E. contradiction.
Qed.

Lemma no_labels_have_text :
  editor.labels_have_text editor.sample_ops editor.no_labels.
Proof. intros loc l H. discriminate. Qed.

(** X12.  The undo action can itself be undone: under the proviso that the
    label store is a map keyed by location in which a non-empty text stores
    the label and the empty text removes it, and for a store without
    empty-text labels, performing an action, then the undo action it
    returned, then the action that one returned leaves at every location
    the label the first action had put there. *)
Theorem label_redo_restores :
  forall Color Labels (ops : editor.map_labels_ops Color Labels)
         a mc undo mc' redo mc'',
    editor.keyed_by_location ops ->
    editor.labels_have_text ops mc ->
    editor.perform ops a mc = (Some undo, mc') ->
    editor.perform ops undo mc' = (Some redo, mc'') ->
    forall loc,
      editor.get_label ops (snd (editor.perform ops redo mc'')) loc
      = editor.get_label ops mc' loc.
Proof.
  intros Color Labels ops a mc undo mc' redo mc'' Hkeyed Hinv Ha Hundo.
  eapply undo_restores; [exact Hkeyed | | exact Hundo].
  replace mc' with (snd (editor.perform ops a mc)) by (rewrite Ha; reflexivity).
  apply perform_keeps_text; assumption.
Qed.

Lemma label_redo_restores_witness :
  let ford :=
    editor.editor_action_label {| x := 3; y := 4 |} "Ford" "" 0
                               true false false in
  let step1 := editor.perform editor.sample_ops ford editor.no_labels in
  let step2 :=
    editor.perform editor.sample_ops
      (editor.editor_action_label_delete {| x := 3; y := 4 |}) (snd step1) in
  fst step2 = Some ford
  /\ editor.get_label editor.sample_ops
       (snd (editor.perform editor.sample_ops ford (snd step2)))
       {| x := 3; y := 4 |}
     = editor.get_label editor.sample_ops (snd step1) {| x := 3; y := 4 |}.
Proof.
  intros ford step1 step2. split; [reflexivity|].
  exact (@label_redo_restores _ _ editor.sample_ops ford editor.no_labels
           (editor.editor_action_label_delete {| x := 3; y := 4 |})
           (snd step1) ford (snd step2)
           sample_ops_keyed no_labels_have_text eq_refl eq_refl
           {| x := 3; y := 4 |}).
Defined.

(** X13.  The action [perform] returns undoes the action performed: under
    the same proviso, performing a label action or a label deletion and then
    the action it returned leaves at every location the label that was
    there before. *)
Theorem label_undo_restores :
  forall Color Labels (ops : editor.map_labels_ops Color Labels)
         a mc undo mc',
    editor.keyed_by_location ops ->
    editor.labels_have_text ops mc ->
    editor.perform ops a mc = (Some undo, mc') ->
    forall loc,
      editor.get_label ops (snd (editor.perform ops undo mc')) loc
      = editor.get_label ops mc loc.
Proof. intros. eapply undo_restores; eassumption. Qed.

Lemma label_undo_restores_witness :
  editor.get_label editor.sample_ops
    (snd (editor.perform editor.sample_ops
            (editor.editor_action_label_delete {| x := 3; y := 4 |})
            (editor.perform_without_undo editor.sample_ops
               (editor.editor_action_label {| x := 3; y := 4 |} "Ford" ""
                                           0 true false false)
               editor.no_labels)))
    {| x := 3; y := 4 |}
  = editor.get_label editor.sample_ops editor.no_labels {| x := 3; y := 4 |}.
Proof.
  exact (@label_undo_restores _ _ editor.sample_ops
           (editor.editor_action_label {| x := 3; y := 4 |} "Ford" "" 0
                                       true false false)
           editor.no_labels _ _
           sample_ops_keyed no_labels_have_text eq_refl {| x := 3; y := 4 |}).
Defined.

(** X14.  [perform] returns no undo action ([NULL]) in one case only: a
    label deletion at a location that has no label; the label store is then
    left as it was. *)
Theorem only_idle_delete_has_no_undo :
  forall Color Labels (ops : editor.map_labels_ops Color Labels) a mc,
    (fst (editor.perform ops a mc) = None
     <-> exists loc,
           a = editor.editor_action_label_delete loc
           /\ editor.get_label ops mc loc = None)
    /\ (fst (editor.perform ops a mc) = None ->
        snd (editor.perform ops a mc) = mc).
Proof.
  intros Color Labels ops a mc.
  destruct a as [loc_ t tn c f s i | loc_]; cbn [editor.perform].
  - cbn [fst]. split.
    + split; [discriminate|]. intros [loc [H _]]. discriminate.
    + discriminate.
  - destruct (editor.get_label ops mc loc_) eqn:E; cbn [fst snd]; split.
    + split; [discriminate|].
      intros [loc [[= <-] H]]. congruence.
    + discriminate.
    + split; [|reflexivity]. intros _. exists loc_.
      split; [reflexivity | exact E].
    + reflexivity.
Qed.

(** ** The result of the local predicate with scripts *)

Lemma value_formula_and_lua lib fc f l u loc :
  value (formula_and_lua lib fc f l u loc)
  = (blank f || formula_matches_filter lib (str f) loc u)
    && lua_passes fc l u.
Proof.
  unfold formula_and_lua, lua_passes.
  destruct (blank f), (blank l), (get_lua_kernel fc); cbn;
    destruct (formula_matches_filter lib (str f) loc u); reflexivity.
Qed.

(** X15.  The local predicate holds exactly when the checks before the
    scripts hold, the formula, if one is given, holds, and the scripting
    function, if one is given and a kernel is there, holds: a missing
    kernel makes the scripting check pass, not fail. *)
Theorem local_predicate_with_scripts :
  forall lib fc (m : basic_members unit_filter) nested u loc,
    value (internal_matches_filter lib fc m nested u loc)
    = value (internal_matches_filter lib fc (without_scripts m) nested u loc)
      && (blank (cfg_formula_ m)
          || formula_matches_filter lib (str (cfg_formula_ m)) loc u)
      && lua_passes fc (cfg_lua_function_ m) u.
Proof.
  intros lib fc m nested u loc.
  rewrite scripts_come_last, value_bind.
  destruct (value (internal_matches_filter lib fc (without_scripts m)
                     nested u loc)); [|reflexivity].
  rewrite value_formula_and_lua. reflexivity.
Qed.

(** ** Which units the map queries look at *)

Section QueryTraces.

Variable lib : library.
Variable fc : filter_context.

Lemma trace_all_matches_loop f us acc :
  trace (all_matches_loop lib fc f us acc)
  = flat_map (fun u => trace (matches lib fc f u (get_location u))) us.
Proof.
  revert acc. induction us as [|u us IH]; intro acc; [reflexivity|].
  cbn [all_matches_loop flat_map]. rewrite trace_bind, IH. reflexivity.
Qed.

Lemma trace_first_match_loop f us :
  trace (first_match_loop lib fc f us)
  = flat_map (fun u => trace (matches lib fc f u (get_location u)))
      (through_first
         (fun u => value (matches lib fc f u (get_location u))) us).
Proof.
  induction us as [|u us IH]; [reflexivity|].
  cbn [first_match_loop through_first flat_map]. rewrite trace_bind.
  destruct (value (matches lib fc f u (get_location u))).
  - reflexivity.
  - rewrite IH. reflexivity.
Qed.

End QueryTraces.

(** X16.  [all_matches_on_map] of a basic filter evaluates the filter once
    on every unit of the world, in iteration order; [first_match_on_map]
    evaluates it on the units up to and with the first match and on none
    after it. *)
Theorem map_queries_evaluate_in_order :
  forall lib fc m,
    trace (all_matches_on_map lib fc (basic_unit_filter_impl m))
    = flat_map
        (fun u => trace (matches lib fc (basic_unit_filter_impl m) u
                           (get_location u)))
        (units fc)
    /\ trace (first_match_on_map lib fc (basic_unit_filter_impl m))
       = flat_map
           (fun u => trace (matches lib fc (basic_unit_filter_impl m) u
                              (get_location u)))
           (through_first
              (fun u => value (matches lib fc (basic_unit_filter_impl m) u
                                 (get_location u)))
              (units fc)).
Proof.
  intros lib fc m. split.
  - apply trace_all_matches_loop.
  - apply trace_first_match_loop.
Qed.

Lemma viewers_are_the_sides_witness :
  In 2 (viewers_of Sample.lib Sample.fc
          (Sample.leaf [("side", "2, 1, 2"); ("visible", "no")])).
Proof.
  apply (proj1 (proj2 (viewers_are_the_sides Sample.lib Sample.fc
                         (Sample.leaf [("side", "2, 1, 2");
                                       ("visible", "no")])))).
  left. reflexivity.
Defined.

Lemma only_idle_delete_has_no_undo_witness :
  fst (editor.perform editor.sample_ops
         (editor.editor_action_label_delete {| x := 3; y := 4 |})
         editor.no_labels) = None.
Proof.
  apply (proj1 (only_idle_delete_has_no_undo editor.sample_ops
                  (editor.editor_action_label_delete {| x := 3; y := 4 |})
                  editor.no_labels)).
  exists {| x := 3; y := 4 |}. split; reflexivity.
Defined.
